(** * sqlrepo: the generic repository engine of [pkg/repository]

    A shallow embedding of [repository.go] and [contract.go]: the entity
    repository that synthesises SQL text from the reflected shape of an
    entity type, runs it on a database handle and back-fills generated
    keys.  Go values live in an explicit store (entities are passed as
    [*E]), the database handle is an opaque driver whose calls are
    recorded, and a Go panic is a third outcome next to a returned value
    and a returned error. *)

From Stdlib Require Import ZArith Ascii.
From stdpp Require Import gmap strings list.

Local Open Scope Z_scope.

(** ** The [strings] functions the repository calls *)

Module Strings.

(** [strings.Join(elems, sep)]. *)
Fixpoint Join (elems : list string) (sep : string) : string :=
  match elems with
  | [] => ""
  | [e] => e
  | e :: rest => e +:+ sep +:+ Join rest sep
  end.

(** [strings.Split(s, sep)] for a one-byte separator (the repository only
    splits on a comma): the pieces between separators, at least one. *)
Fixpoint Split (s : string) (sep : ascii) : list string :=
  match s with
  | EmptyString => [""]
  | String c rest =>
      if Ascii.eqb c sep then "" :: Split rest sep
      else match Split rest sep with
           | [] => [String c ""]
           | piece :: pieces => String c piece :: pieces
           end
  end.

(** The white space of [unicode.IsSpace], byte by byte in UTF-8.  One byte:
    tab, line feed, vertical tab, form feed, carriage return, space. *)
Definition isSpace (c : ascii) : bool :=
  let n := nat_of_ascii c in
  ((9 <=? n)%nat && (n <=? 13)%nat) || (n =? 32)%nat.

(** Two bytes: U+0085 and U+00A0. *)
Definition isSpace2 (c0 c1 : ascii) : bool :=
  let n0 := nat_of_ascii c0 in
  let n1 := nat_of_ascii c1 in
  (n0 =? 194)%nat && ((n1 =? 133)%nat || (n1 =? 160)%nat).

(** Three bytes: U+1680, U+2000 to U+200A, U+2028, U+2029, U+202F, U+205F
    and U+3000. *)
Definition isSpace3 (c0 c1 c2 : ascii) : bool :=
  let n0 := nat_of_ascii c0 in
  let n1 := nat_of_ascii c1 in
  let n2 := nat_of_ascii c2 in
  ((n0 =? 225)%nat && (n1 =? 154)%nat && (n2 =? 128)%nat)
  || ((n0 =? 226)%nat && (n1 =? 128)%nat
      && (((128 <=? n2)%nat && (n2 <=? 138)%nat)
          || (n2 =? 168)%nat || (n2 =? 169)%nat || (n2 =? 175)%nat))
  || ((n0 =? 226)%nat && (n1 =? 129)%nat && (n2 =? 159)%nat)
  || ((n0 =? 227)%nat && (n1 =? 128)%nat && (n2 =? 128)%nat).

Fixpoint TrimLeft (s : string) : string :=
  match s with
  | EmptyString => ""
  | String c0 rest0 =>
      if isSpace c0 then TrimLeft rest0
      else match rest0 with
           | EmptyString => s
           | String c1 rest1 =>
               if isSpace2 c0 c1 then TrimLeft rest1
               else match rest1 with
                    | EmptyString => s
                    | String c2 rest2 =>
                        if isSpace3 c0 c1 c2 then TrimLeft rest2 else s
                    end
           end
  end.

(** The same from the end, on the bytes in reverse order. *)
Fixpoint trimReversed (l : list ascii) : list ascii :=
  match l with
  | [] => []
  | c0 :: rest0 =>
      if isSpace c0 then trimReversed rest0
      else match rest0 with
           | [] => l
           | c1 :: rest1 =>
               if isSpace2 c1 c0 then trimReversed rest1
               else match rest1 with
                    | [] => l
                    | c2 :: rest2 =>
                        if isSpace3 c2 c1 c0 then trimReversed rest2 else l
                    end
           end
  end.

Definition TrimRight (s : string) : string :=
  String.string_of_list_ascii (rev (trimReversed (rev (String.list_ascii_of_string s)))).

(** [strings.TrimSpace(s)]. *)
Definition TrimSpace (s : string) : string := TrimRight (TrimLeft s).

(** [strings.TrimSuffix(s, suffix)]: [s] without the given trailing
    [suffix], or [s] itself when it does not end with it. *)
Fixpoint cutSuffix (s suffix : string) : option string :=
  if String.eqb s suffix then Some ""
  else match s with
       | EmptyString => None
       | String c rest => String c <$> cutSuffix rest suffix
       end.

Definition TrimSuffix (s suffix : string) : string :=
  default s (cutSuffix s suffix).

(** Number of occurrences of a byte. *)
Fixpoint count (c : ascii) (s : string) : nat :=
  match s with
  | EmptyString => 0%nat
  | String c' rest => ((if Ascii.eqb c' c then 1 else 0) + count c rest)%nat
  end.

(** [n] times [item sep] is the [Join] of [n] items and one more [sep]. *)
Fixpoint repeated (item sep : string) (n : nat) : string :=
  match n with
  | O => ""
  | S n => item +:+ sep +:+ repeated item sep n
  end.

End Strings.

(** ** Values and reflected types *)

(** [reflect.Kind]. *)
Inductive Kind :=
| KInvalid | KBool
| KInt | KInt8 | KInt16 | KInt32 | KInt64
| KUint | KUint8 | KUint16 | KUint32 | KUint64 | KUintptr
| KFloat32 | KFloat64 | KComplex64 | KComplex128
| KArray | KChan | KFunc | KInterface | KMap | KPointer | KSlice
| KString | KStruct | KUnsafePointer.

(** A value held in a field or handed to the driver as [interface{}]. *)
Inductive value :=
| VInt (z : Z)
| VBool (b : bool)
| VString (s : string)
| VNil
| VOpaque (n : nat).

Global Instance value_eq_dec : EqDecision value.
Proof. solve_decision. Defined.

(** The identifier type [ID] is any comparable type; an identifier reaches
    the driver as an [interface{}] argument. *)
Abbreviation ID := value (only parsing).

(** The zero value of a field of the given kind. *)
Definition zeroOfKind (k : Kind) : value :=
  match k with
  | KBool => VBool false
  | KInt | KInt8 | KInt16 | KInt32 | KInt64
  | KUint | KUint8 | KUint16 | KUint32 | KUint64 | KUintptr => VInt 0
  | KString => VString ""
  | KFloat32 | KFloat64 | KComplex64 | KComplex128 | KArray | KStruct => VOpaque 0
  | _ => VNil
  end.

(** The width of a signed integer kind ([int] is 64 bits wide), [None] for
    every other kind: the kinds [reflect.Value.SetInt] accepts. *)
Definition signedBits (k : Kind) : option Z :=
  match k with
  | KInt => Some 64
  | KInt8 => Some 8
  | KInt16 => Some 16
  | KInt32 => Some 32
  | KInt64 => Some 64
  | _ => None
  end.

(** Two's-complement wrap-around to [bits] bits. *)
Definition wrapSigned (bits : Z) (x : Z) : Z :=
  (x + 2 ^ (bits - 1)) mod 2 ^ bits - 2 ^ (bits - 1).

(** [reflect.StructField], as far as the repository reads it: the name, the
    package path (empty exactly for an exported field), the value of the
    [db] key of the tag, and the kind of the field's type. *)
Record StructField := {
  Name : string;
  PkgPath : string;
  TagDb : string;
  FieldKind : Kind;
}.

Definition IsExported (f : StructField) : bool := String.eqb (PkgPath f) "".

(** A struct value: its fields in declaration order. *)
Abbreviation Struct := (list value) (only parsing).

Inductive Underlying :=
| UStruct (fields : list StructField)
| UBasic (k : Kind).

(** A defined type with the methods declared on it; a method is identified
    by its name and signature. *)
Record TypeDecl := {
  underlying : Underlying;
  valueReceiverMethods : list string;
  pointerReceiverMethods : list string;
}.

(** The types [E] can be instantiated with. *)
Inductive GoType :=
| TDefined (d : TypeDecl)
| TPointer (elem : GoType)
| TInterface (methods : list string).

(** The method set of a type: the methods declared with receiver [T] for a
    defined type [T]; those with receiver [T] or [*T] for a pointer to a
    defined type; the interface's own for an interface type; empty for
    every other type. *)
Definition methodSet (t : GoType) : list string :=
  match t with
  | TDefined d => valueReceiverMethods d
  | TPointer (TDefined d) => valueReceiverMethods d ++ pointerReceiverMethods d
  | TPointer _ => []
  | TInterface ms => ms
  end.

Definition implements (t : GoType) (iface : list string) : bool :=
  forallb (fun m => bool_decide (m ∈ methodSet t)) iface.

(** The interface [Entity[ID]] of [contract.go], for an identifier type
    written [idType]. *)
Definition Entity (idType : string) : list string :=
  [ "GetID() " +:+ idType; "GetTableName() string"; "ToMap() map[string]any" ].

Definition zeroValue (d : TypeDecl) : Struct :=
  match underlying d with
  | UStruct fields => zeroOfKind ∘ FieldKind <$> fields
  | UBasic k => [zeroOfKind k]
  end.

(** ** The store, the driver and the outcome of a call *)

(** Entities are passed as [*E]: a pointer is [None] (nil) or the address
    of a struct in the store. *)
Abbreviation loc := nat (only parsing).
Abbreviation ptr := (option nat) (only parsing).

Inductive error :=
| Errorf (msg : string)           (* an error made by [fmt.Errorf] *)
| DriverError (msg : string).     (* an error returned by the database handle *)

(** The database handle ([sqlx.DB]) as the repository uses it; a failing
    call gives the driver's message. *)
Record Driver := {
  DBState : Type;
  SqlResult : Type;
  (* [DB.Exec(query, args...)] *)
  Exec : DBState → string → list value → DBState * (string + SqlResult);
  (* [Result.LastInsertId()] *)
  LastInsertId : SqlResult → string + Z;
  (* [DB.Select(&dest, query, args...)]: the rows, scanned into structs *)
  Select : DBState → string → list value → DBState * (string + list Struct);
  (* [DB.Get(&dest, query)] into an [int] *)
  Get : DBState → string → list value → DBState * (string + Z);
}.

(** The methods an entity type supplies, taken to be pure and total on a
    struct receiver.  [ToMap] is never called by the repository.
    [nilGetTableName] is what [GetTableName] does on a nil
    pointer receiver (the zero value of a pointer instantiation of [E]):
    [None] when that call panics. *)
Record EntityMethods := {
  GetID : Struct → ID;
  GetTableName : Struct → string;
  nilGetTableName : option string;
}.

(** A statement handed to the database handle. *)
Inductive Call :=
| CExec (query : string) (args : list value)
| CSelect (query : string) (args : list value)
| CGet (query : string) (args : list value).

(** [contract.go]: [Pagination] and [PaginatedResult]. *)
Record Pagination := { Limit : Z; Offset : Z }.

Record PaginatedResult := {
  PaginationOf : Pagination;
  TotalCount : Z;
  Results : list ptr;
}.

Inductive Res (A : Type) :=
| Return (a : A)
| Err (e : error)
| Panic.
Arguments Return {A} a.
Arguments Err {A} e.
Arguments Panic {A}.

(** Anything but a returned error. *)
Definition notErr {A} (r : Res A) : Prop :=
  match r with Err _ => False | _ => True end.

Section Repository.

Context (drv : Driver).
(** The instantiation [entityRepository[E, ID]]: the type [E], how [ID] is
    written, and the methods of [E]. *)
Context (E : GoType) (idType : string) (methods : EntityMethods).

Record World := {
  heap : gmap loc Struct;
  db : DBState drv;
  trace : list Call;
}.

Definition M (A : Type) : Type := World → World * Res A.

Definition ret {A} (a : A) : M A := λ w, (w, Return a).
Definition fail {A} (e : error) : M A := λ w, (w, Err e).
Definition panic {A} : M A := λ w, (w, Panic).
Definition bind {A B} (m : M A) (k : A → M B) : M B :=
  λ w, match m w with
       | (w', Return a) => k a w'
       | (w', Err e) => (w', Err e)
       | (w', Panic) => (w', Panic)
       end.

Local Notation "x <- m ;; k" := (bind m (λ x, k))
  (at level 100, m at next level, right associativity).

Definition fromDriver {A} (r : string + A) : Res A :=
  match r with inl msg => Err (DriverError msg) | inr a => Return a end.

Definition setHeap (h : gmap loc Struct) (w : World) : World :=
  {| heap := h; db := db w; trace := trace w |}.

Definition issue (c : Call) (d : DBState drv) (w : World) : World :=
  {| heap := heap w; db := d; trace := trace w ++ [c] |}.

Definition DB_Exec (query : string) (args : list value) : M (SqlResult drv) :=
  λ w, let '(d, r) := Exec drv (db w) query args in
       (issue (CExec query args) d w, fromDriver r).

(** A scanned row becomes a fresh [*E]. *)
Definition new (v : Struct) : M ptr :=
  λ w, let l := fresh (dom (heap w)) in
       (setHeap (<[l := v]> (heap w)) w, Return (Some l)).

Fixpoint newAll (rows : list Struct) : M (list ptr) :=
  match rows with
  | [] => ret []
  | v :: rest => p <- new v ;; ps <- newAll rest ;; ret (p :: ps)
  end.

Definition DB_Select (query : string) (args : list value) : M (list ptr) :=
  rows <- (λ w, let '(d, r) := Select drv (db w) query args in
                (issue (CSelect query args) d w, fromDriver r)) ;;
  newAll rows.

Definition DB_Get (query : string) (args : list value) : M Z :=
  λ w, let '(d, r) := Get drv (db w) query args in
       (issue (CGet query args) d w, fromDriver r).

(** [*p] for an entity pointer; a nil pointer panics. *)
Definition deref (p : ptr) : M Struct :=
  λ w, match p ≫= (heap w !!.) with
       | Some v => (w, Return v)
       | None => (w, Panic)
       end.

(** [var emptyEntity E; emptyEntity.GetTableName()].  The zero value of a
    pointer type is a nil pointer and that of an interface type a nil
    interface, on which every method call panics. *)
Definition emptyEntityTableName : M string :=
  match E with
  | TDefined d => ret (GetTableName methods (zeroValue d))
  | TPointer _ =>
      match nilGetTableName methods with
      | Some t => ret t
      | None => panic
      end
  | TInterface _ => panic
  end.

(** [any(p).(Entity[ID])] for [p : *E]: the dynamic type is [*E], nil or
    not. *)
Definition assertEntity : bool := implements (TPointer E) (Entity idType).

Definition notEntity : error :=
  Errorf "entity does not implement the Entity interface".
Definition notFound : error := Errorf "entity not found".

(** *** Reads *)

Definition FindAll : M (list ptr) :=
  tableName <- emptyEntityTableName ;;
  let query := "SELECT * FROM " +:+ tableName in
  DB_Select query [].

(** The loop shared by [FindAllByID] and [DeleteByIDs]:
    [idStrings[i] = "?"; args[i] = id]. *)
Fixpoint bindIDs (ids : list ID) (i : nat)
    (idStrings : list string) (args : list value) : list string * list value :=
  match ids with
  | [] => (idStrings, args)
  | id :: rest => bindIDs rest (S i) (<[i := "?"]> idStrings) (<[i := id]> args)
  end.

Definition inClause (ids : list ID) : string * list value :=
  let args := replicate (length ids) VNil in
  let idStrings := replicate (length ids) "" in
  let '(idStrings, args) := bindIDs ids 0 idStrings args in
  ("IN (" +:+ Strings.Join idStrings "," +:+ ")", args).

Definition FindAllByID (ids : list ID) : M (list ptr) :=
  tableName <- emptyEntityTableName ;;
  let '(clause, args) := inClause ids in
  let query := "SELECT * FROM " +:+ tableName +:+ " WHERE id " +:+ clause in
  DB_Select query args.

Definition FindByID (id : ID) : M ptr :=
  entities <- FindAllByID [id] ;;
  if (length entities =? 0)%nat then fail notFound
  else match entities !! 0%nat with
       | Some first => ret first
       | None => panic
       end.

Definition ExistsByID (id : ID) : M () :=
  entities <- FindAllByID [id] ;;
  if (length entities =? 0)%nat then fail notFound else ret ().

Definition FindAllPaginated (pagination : Pagination) : M PaginatedResult :=
  tableName <- emptyEntityTableName ;;
  let query := "SELECT * FROM " +:+ tableName +:+ " LIMIT ? OFFSET ?" in
  entities <- DB_Select query [VInt (Limit pagination); VInt (Offset pagination)] ;;
  let countQuery := "SELECT COUNT(*) FROM " +:+ tableName in
  totalCount <- DB_Get countQuery [] ;;
  ret {| PaginationOf := pagination; TotalCount := totalCount; Results := entities |}.

(** *** Deletes *)

Definition DeleteByIDs (ids : list ID) : M () :=
  tableName <- emptyEntityTableName ;;
  let '(clause, args) := inClause ids in
  let query := "DELETE FROM " +:+ tableName +:+ " WHERE id " +:+ clause in
  _ <- DB_Exec query args ;;
  ret ().

Definition DeleteByID (id : ID) : M () := DeleteByIDs [id].

Definition DeleteAll : M () :=
  tableName <- emptyEntityTableName ;;
  let query := "DELETE FROM " +:+ tableName in
  _ <- DB_Exec query [] ;;
  ret ().

(** The loop of [DeleteEntities]: assert, then append the entity's key. *)
Fixpoint collectIDs (entities : list ptr) (ids : list ID) : M (list ID) :=
  match entities with
  | [] => ret ids
  | entity :: rest =>
      if assertEntity then
        v <- deref entity ;;
        collectIDs rest (ids ++ [GetID methods v])
      else fail notEntity
  end.

Definition DeleteEntities (entities : list ptr) : M () :=
  ids <- collectIDs entities [] ;;
  DeleteByIDs ids.

Definition DeleteEntity (entity : ptr) : M () := DeleteEntities [entity].

(** *** Inserts *)

(** What the first loop of [SaveAll] gathers from the fields of the first
    entity's type. *)
Record Shape := {
  columns : list string;
  placeholders : list string;
  idAutoIncrement : bool;
  idField : StructField;
}.

(** [var columns, placeholders []string; var idAutoIncrement bool;
    var idField reflect.StructField]. *)
Definition noShape : Shape :=
  {| columns := []; placeholders := []; idAutoIncrement := false;
     idField := {| Name := ""; PkgPath := ""; TagDb := ""; FieldKind := KInvalid |} |}.

(** One turn of the loop over the fields. *)
Definition scanField (s : Shape) (field : StructField) : Shape :=
  let dbTag := TagDb field in
  let tagParts := Strings.TrimSpace <$> Strings.Split dbTag "," in
  match tagParts with
  | [] => s
  | columnName :: _ =>
      if String.eqb columnName "id" then
        let auto := (1 <? length tagParts)%nat
                    && bool_decide ("autoincrement" ∈ tagParts) in
        if auto then
          {| columns := columns s; placeholders := placeholders s;
             idAutoIncrement := auto; idField := field |}
        else
          {| columns := columns s ++ [columnName];
             placeholders := placeholders s ++ ["?"];
             idAutoIncrement := auto; idField := field |}
      else
        {| columns := columns s ++ [columnName];
           placeholders := placeholders s ++ ["?"];
           idAutoIncrement := idAutoIncrement s; idField := idField s |}
  end.

Definition scanFields (fields : list StructField) : Shape :=
  foldl scanField noShape fields.

(** The inner loop over the fields [i, i+1, ...] of one entity: appends
    [entityValue.Field(i).Interface()] for every field that is not skipped.
    [entityValue] is [None] for the zero [reflect.Value] (the [Elem] of a
    nil pointer), on which [Field] panics; [Interface] panics on an
    unexported field. *)
Fixpoint rowValues (auto : bool) (entityValue : option Struct)
    (fields : list StructField) (i : nat) (values : list value) : Res (list value) :=
  match fields with
  | [] => Return values
  | field :: rest =>
      let dbTag := TagDb field in
      let tagParts := Strings.Split dbTag "," in
      match tagParts !! 0%nat with
      | None => Panic
      | Some part =>
          let columnName := Strings.TrimSpace part in
          if String.eqb columnName "id" && auto then
            rowValues auto entityValue rest (S i) values
          else
            match entityValue ≫= (.!! i) with
            | Some x =>
                if IsExported field
                then rowValues auto entityValue rest (S i) (values ++ [x])
                else Panic
            | None => Panic
            end
      end
  end.

(** The loop over the entities: the values of each row and one more
    group of placeholders. *)
Fixpoint buildRows (s : Shape) (fields : list StructField) (entities : list ptr)
    (query : string) (values : list value) : M (string * list value) :=
  match entities with
  | [] => ret (query, values)
  | entity :: rest =>
      λ w, let entityValue := entity ≫= (heap w !!.) in
           match rowValues (idAutoIncrement s) entityValue fields 0 values with
           | Return values =>
               buildRows s fields rest
                 (query +:+ "(" +:+ Strings.Join (placeholders s) "," +:+ "),")
                 values w
           | Err e => (w, Err e)
           | Panic => (w, Panic)
           end
  end.

(** [Value.FieldByName(name)] on a struct without promoted fields of that
    name: the first field called [name], with its index. *)
Fixpoint fieldByNameFrom (fields : list StructField) (name : string) (i : nat)
    : option (nat * StructField) :=
  match fields with
  | [] => None
  | f :: rest =>
      if String.eqb (Name f) name then Some (i, f)
      else fieldByNameFrom rest name (S i)
  end.

Definition FieldByName (fields : list StructField) (name : string)
    : option (nat * StructField) :=
  if String.eqb name "" then None else fieldByNameFrom fields name 0.

(** [int64] addition. *)
Definition addInt64 (x y : Z) : Z := wrapSigned 64 (x + y).

(** [Value.SetInt(x)] on field [j] of the struct at [l]: panics unless the
    field is settable (exported) and of a signed integer kind, and stores
    [x] converted to the field's type. *)
Definition SetInt (l : loc) (v : Struct) (j : nat) (f : StructField) (x : Z) : M () :=
  match v !! j, IsExported f, signedBits (FieldKind f) with
  | Some _, true, Some bits =>
      λ w, (setHeap (<[l := <[j := VInt (wrapSigned bits x)]> v]> (heap w)) w, Return ())
  | _, _, _ => panic
  end.

(** The loop that sets the auto-increment keys, from index [i] on. *)
Fixpoint backfill (s : Shape) (fields : list StructField) (lastInsertID : Z)
    (entities : list ptr) (i : nat) : M () :=
  match entities with
  | [] => ret ()
  | entity :: rest =>
      λ w, match entity with
           | Some l =>
               match heap w !! l, FieldByName fields (Name (idField s)) with
               | Some v, Some (j, f) =>
                   (_ <- SetInt l v j f (addInt64 lastInsertID (Z.of_nat i)) ;;
                    backfill s fields lastInsertID rest (S i)) w
               | _, _ => (w, Panic)
               end
           | None => (w, Panic)
           end
  end.

(** [entityType.NumField()] and [entityType.Field(i)] panic unless the
    type is a struct. *)
Definition structFields : option (list StructField) :=
  match E with
  | TDefined d =>
      match underlying d with
      | UStruct fields => Some fields
      | UBasic _ => None
      end
  | _ => None
  end.

Definition SaveAll (entities : list ptr) : M () :=
  if (length entities =? 0)%nat then ret ()
  else
    match entities !! 0%nat with
    | None => panic
    | Some firstEntity =>
        (* [reflect.ValueOf(firstEntity).Elem().Type()] *)
        λ w, match firstEntity ≫= (heap w !!.) with
             | None => (w, Panic)
             | Some firstValue =>
                 if negb assertEntity then (w, Err notEntity)
                 else
                   match structFields with
                   | None => (w, Panic)
                   | Some fields =>
                       let s := scanFields fields in
                       let query := "INSERT INTO " +:+ GetTableName methods firstValue
                                    +:+ " (" +:+ Strings.Join (columns s) "," +:+ ") VALUES " in
                       (qv <- buildRows s fields entities query [] ;;
                        let query := Strings.TrimSuffix qv.1 "," in
                        result <- DB_Exec query qv.2 ;;
                        if idAutoIncrement s then
                          lastInsertID <- (λ w, (w, fromDriver (LastInsertId drv result))) ;;
                          backfill s fields lastInsertID entities 0
                        else ret ()) w
                   end
             end
    end.

Definition Save (entity : ptr) : M () := SaveAll [entity].

End Repository.

Arguments heap {drv} w.
Arguments db {drv} w.
Arguments trace {drv} w.
Arguments Build_World {drv} heap db trace.
Arguments ret {drv A} a.
Arguments fail {drv A} e.
Arguments panic {drv A}.
Arguments bind {drv A B} m k.

(** ** The sample entity and a store to run the repository on *)

Module Sample.

(** [SampleEntity] of [test_utils.go]:
    [Id int64 `db:"id,autoincrement"`; Name string `db:"name"`], with its
    three methods declared on the value receiver. *)
Definition fields : list StructField :=
  [ {| Name := "Id"; PkgPath := ""; TagDb := "id,autoincrement"; FieldKind := KInt64 |};
    {| Name := "Name"; PkgPath := ""; TagDb := "name"; FieldKind := KString |} ].

Definition decl : TypeDecl :=
  {| underlying := UStruct fields;
     valueReceiverMethods := Entity "int64";
     pointerReceiverMethods := [] |}.

Definition SampleEntity : GoType := TDefined decl.

Definition methods : EntityMethods :=
  {| GetID := λ e, default VNil (e !! 0%nat);
     GetTableName := λ _, "sample_entities";
     nilGetTableName := None |}.

Definition entity (id : Z) (name : string) : Struct := [VInt id; VString name].

End Sample.

Module MemDB.

(** A stand-in for the backing store, which is external to the repository:
    it keeps the rows of [sample_entities] in insertion order, assigns
    consecutive keys to the rows of one INSERT and reports the first of
    them, and rejects every statement it does not know, the empty [IN ()]
    among them.  Only the examples run on it. *)
Record state := { rows : list Struct; nextID : Z }.

Definition idOf (r : Struct) : value := default VNil (r !! 0%nat).

Fixpoint insertNames (names : list value) (id : Z) : list Struct :=
  match names with
  | [] => []
  | n :: rest => [VInt id; n] :: insertNames rest (id + 1)
  end.

Definition groups (n : nat) : string := Strings.Join (replicate n "(?)") ",".
Definition marks (n : nat) : string := Strings.Join (replicate n "?") ",".

Definition exec (st : state) (query : string) (args : list value)
    : state * (string + Z) :=
  if String.eqb query ("INSERT INTO sample_entities (name) VALUES " +:+ groups (length args))
     && negb (length args =? 0)%nat then
    ({| rows := rows st ++ insertNames args (nextID st);
        nextID := nextID st + Z.of_nat (length args) |}, inr (nextID st))
  else if String.eqb query "DELETE FROM sample_entities" then
    ({| rows := []; nextID := nextID st |}, inr 0)
  else if String.eqb query ("DELETE FROM sample_entities WHERE id IN (" +:+ marks (length args) +:+ ")")
          && negb (length args =? 0)%nat then
    ({| rows := filter (λ r, idOf r ∉ args) (rows st); nextID := nextID st |}, inr 0)
  else (st, inl "You have an error in your SQL syntax").

Definition select (st : state) (query : string) (args : list value)
    : state * (string + list Struct) :=
  if String.eqb query "SELECT * FROM sample_entities" then (st, inr (rows st))
  else if String.eqb query ("SELECT * FROM sample_entities WHERE id IN (" +:+ marks (length args) +:+ ")")
          && negb (length args =? 0)%nat then
    (st, inr (filter (λ r, idOf r ∈ args) (rows st)))
  else if String.eqb query "SELECT * FROM sample_entities LIMIT ? OFFSET ?" then
    match args with
    | [VInt limit; VInt offset] =>
        (st, inr (take (Z.to_nat limit) (drop (Z.to_nat offset) (rows st))))
    | _ => (st, inl "wrong number of arguments")
    end
  else (st, inl "You have an error in your SQL syntax").

Definition get (st : state) (query : string) (args : list value)
    : state * (string + Z) :=
  if String.eqb query "SELECT COUNT(*) FROM sample_entities"
  then (st, inr (Z.of_nat (length (rows st))))
  else (st, inl "You have an error in your SQL syntax").

Definition driver : Driver :=
  {| DBState := state; SqlResult := Z;
     Exec := exec; LastInsertId := λ r, inr r;
     Select := select; Get := get |}.

(** A world whose table holds the given rows. *)
Definition world (h : gmap loc Struct) (table : list Struct) (next : Z) : World driver :=
  @Build_World driver h {| rows := table; nextID := next |} [].

End MemDB.

(** ** The bulk insert in the words of the specification *)

Module Spec.

(** The storage name of a field: the first part of its [db] tag. *)
Definition storageName (f : StructField) : string :=
  Strings.TrimSpace (default "" (head (Strings.Split (TagDb f) ","))).

(** A field is marked auto-generated when its tag lists [autoincrement]. *)
Definition autoGenerated (f : StructField) : bool :=
  bool_decide ("autoincrement" ∈ Strings.TrimSpace <$> Strings.Split (TagDb f) ",").

(** The key field is the one stored as [id]. *)
Definition isKey (f : StructField) : bool := String.eqb (storageName f) "id".

(** Omitted from the column list and from every row: an auto-generated key. *)
Definition omitted (f : StructField) : bool := isKey f && autoGenerated f.

Definition persisted (fields : list StructField) : list StructField :=
  filter (λ f, omitted f = false) fields.

Definition columnList (fields : list StructField) : list string :=
  storageName <$> persisted fields.

(** The values of one row: those of the fields that are not omitted, in
    field order. *)
Fixpoint rowOf (fields : list StructField) (v : Struct) : list value :=
  match fields, v with
  | f :: fs, x :: xs => if omitted f then rowOf fs xs else x :: rowOf fs xs
  | _, _ => []
  end.

Definition placeholderGroup (fields : list StructField) : string :=
  "(" +:+ Strings.Join (replicate (length (columnList fields)) "?") "," +:+ ")".

(** [INSERT INTO <table> (<columns>) VALUES (<placeholders>), ...] with one
    group per entity. *)
Definition insertQuery (table : string) (fields : list StructField) (n : nat) : string :=
  "INSERT INTO " +:+ table +:+ " (" +:+ Strings.Join (columnList fields) "," +:+ ") VALUES "
  +:+ Strings.Join (replicate n (placeholderGroup fields)) ",".

Definition insertArgs (fields : list StructField) (vs : list Struct) : list value :=
  concat (rowOf fields <$> vs).

(** At most one field is stored as [id]. *)
Definition oneKey (fields : list StructField) : Prop :=
  (length (filter (λ f, isKey f = true) fields) ≤ 1)%nat.

(** Every persisted field is exported, so that [Interface] can read it. *)
Definition readable (fields : list StructField) : bool :=
  forallb (λ f, omitted f || IsExported f) fields.

(** A struct type names its fields, each differently (a struct with
    several blank fields is left out). *)
Definition wellFormed (fields : list StructField) : Prop :=
  NoDup (Name <$> fields) ∧ "" ∉ Name <$> fields.

End Spec.

(** ** Worlds and instantiations used as examples *)

Module Scenario.
Import Sample.

(** Two entities built by the caller, not yet saved, and an empty table
    whose next key is 1. *)
Definition unsaved : gmap loc Struct :=
  <[2%nat := entity 0 "test2"]> (<[1%nat := entity 0 "test"]> ∅).

Definition fresh : World MemDB.driver := MemDB.world unsaved [] 1.

(** The same two entities after [SaveAll]: keys 1 and 2, one statement in
    the trace. *)
Definition saved : World MemDB.driver :=
  @Build_World MemDB.driver
    (<[2%nat := entity 2 "test2"]> (<[1%nat := entity 1 "test"]> ∅))
    (MemDB.Build_state [entity 1 "test"; entity 2 "test2"] 3)
    [CExec "INSERT INTO sample_entities (name) VALUES (?),(?)"
           [VString "test"; VString "test2"]].

(** A table of two rows, as after two inserts. *)
Definition twoRows : World MemDB.driver :=
  MemDB.world ∅ [entity 1 "test"; entity 2 "test2"] 3.

(** One unsaved entity and a table whose next key is 5. *)
Definition oneUnsaved : World MemDB.driver :=
  MemDB.world (<[1%nat := entity 0 "test"]> ∅) [] 5.

(** [type User struct { ... }] with the three methods declared on [*User];
    the repository is instantiated with [E = *User]. *)
Definition userDecl : TypeDecl :=
  {| underlying := UStruct fields;
     valueReceiverMethods := [];
     pointerReceiverMethods := Entity "int64" |}.

Definition PointerEntity : GoType := TPointer (TDefined userDecl).

(** A store holding one [*User]. *)
Definition onePointer : World MemDB.driver :=
  MemDB.world (<[1%nat := [VOpaque 7]]> ∅) [] 1.

(** The sample entity with its key declared [uint64]. *)
Definition unsignedFields : list StructField :=
  [ {| Name := "Id"; PkgPath := ""; TagDb := "id,autoincrement"; FieldKind := KUint64 |};
    {| Name := "Name"; PkgPath := ""; TagDb := "name"; FieldKind := KString |} ].

Definition UnsignedEntity : GoType :=
  TDefined {| underlying := UStruct unsignedFields;
              valueReceiverMethods := Entity "uint64";
              pointerReceiverMethods := [] |}.

End Scenario.

(** ** The helpers of [test_utils.go] *)

Module TestUtils.

(** [SampleEntity] passed by value. *)
Record SampleEntity := { Id : Z; Name : string }.

(** The struct a [SampleEntity] value is. *)
Definition toStruct (e : SampleEntity) : Struct := Sample.entity (Id e) (Name e).

Section Helpers.

Context (drv : Driver).

Definition InsertRecordsToSampleEntity (entity : SampleEntity) : M drv Z :=
  let query := "INSERT INTO sample_entities (name) VALUES (?)" in
  bind (DB_Exec drv query [VString (Name entity)]) (λ result,
    bind (λ w, (w, fromDriver (LastInsertId drv result))) (λ id,
      ret id)).



End Helpers.

End TestUtils.

(** ** More drivers and entity types used as examples *)

Module Fixtures.

(** A driver without a store whose calls succeed or fail as told: [Exec]
    gives a result, [LastInsertId] reports 1, [Select] finds no row and
    [Get] counts 0, or each fails with its own message. *)
Definition stub (execOk lastOk selectOk getOk : bool) : Driver :=
  {| DBState := unit; SqlResult := unit;
     Exec := λ st _ _, (st, if execOk then inr () else inl "exec failed");
     LastInsertId := λ _, if lastOk then inr 1 else inl "no insert id";
     Select := λ st _ _, (st, if selectOk then inr [] else inl "select failed");
     Get := λ st _ _, (st, if getOk then inr 0 else inl "count failed") |}.

(** A world of the stub driver with the two unsaved sample entities. *)
Definition stubWorld (execOk lastOk selectOk getOk : bool)
    : World (stub execOk lastOk selectOk getOk) :=
  @Build_World (stub execOk lastOk selectOk getOk) Scenario.unsaved () [].

(** The sample entity with the key supplied by the caller:
    [Id int64 `db:"id"`]. *)
Definition suppliedFields : list StructField :=
  [ {| Name := "Id"; PkgPath := ""; TagDb := "id"; FieldKind := KInt64 |};
    {| Name := "Name"; PkgPath := ""; TagDb := "name"; FieldKind := KString |} ].

Definition SuppliedEntity : GoType :=
  TDefined {| underlying := UStruct suppliedFields;
              valueReceiverMethods := Entity "int64";
              pointerReceiverMethods := [] |}.

(** The sample entity with its name unexported: [name string `db:"name"`]. *)
Definition hiddenFields : list StructField :=
  [ {| Name := "Id"; PkgPath := ""; TagDb := "id,autoincrement"; FieldKind := KInt64 |};
    {| Name := "name"; PkgPath := "repository"; TagDb := "name"; FieldKind := KString |} ].

Definition HiddenEntity : GoType :=
  TDefined {| underlying := UStruct hiddenFields;
              valueReceiverMethods := Entity "int64";
              pointerReceiverMethods := [] |}.

(** Two fields stored as [id]: a generated one first, a plain one last. *)
Definition generatedId : StructField :=
  {| Name := "Id"; PkgPath := ""; TagDb := "id,autoincrement"; FieldKind := KInt64 |}.
Definition legacyId : StructField :=
  {| Name := "LegacyId"; PkgPath := ""; TagDb := " id "; FieldKind := KInt64 |}.
Definition nameField : StructField :=
  {| Name := "Name"; PkgPath := ""; TagDb := "name"; FieldKind := KString |}.

End Fixtures.

(** ** Auxiliary notions for the proofs *)

Section Auxiliary.

Context (drv : Driver).

(** An entity pointer that holds a struct of the entity's type. *)
Definition holds (w : World drv) (fields : list StructField) (p : ptr) (v : Struct) : Prop :=
  p ≫= (heap w !!.) = Some v ∧ length v = length fields.

(** What [SaveAll] does once the rows are built. *)
Definition afterRows (fields : list StructField) (entities : list ptr) (query : string) (args : list value)
    : M drv () :=
  bind (DB_Exec drv query args) (λ result,
    if idAutoIncrement (scanFields fields) then
      bind (λ w, (w, fromDriver (LastInsertId drv result))) (λ lastInsertID,
        backfill drv (scanFields fields) fields lastInsertID entities 0)
    else ret ()).

End Auxiliary.

(** ** Facts about the string functions *)

Module StringFacts.
Import Strings.

Lemma append_cons (x : ascii) (a b : string) : String x a +:+ b = String x (a +:+ b).
Proof. reflexivity. Qed.

Lemma append_assoc (a b c : string) : (a +:+ b) +:+ c = a +:+ (b +:+ c).
Proof. induction a as [|x a IH]; [done |]. by rewrite !append_cons, IH. Qed.

Lemma append_nil_r (a : string) : a +:+ "" = a.
Proof. induction a as [|x a IH]; [done |]. by rewrite append_cons, IH. Qed.

Lemma length_append (a b : string) :
  String.length (a +:+ b) = (String.length a + String.length b)%nat.
Proof. induction a as [|x a IH]; [done |]. rewrite append_cons. simpl. by rewrite IH. Qed.

Lemma Split_nonempty s c : Split s c ≠ [].
Proof.
  destruct s as [|x s]; simpl; [done |].
  destruct (Ascii.eqb x c); [done |]. by destruct (Split s c).
Qed.

Lemma cutSuffix_append s suffix :
  suffix ≠ "" → cutSuffix (s +:+ suffix) suffix = Some s.
Proof.
  intros Hne. induction s as [|x s IH].
  - simpl. destruct suffix as [|y t]; [done |].
    simpl. rewrite String.eqb_refl. by rewrite Ascii.eqb_refl.
  - rewrite append_cons. unfold cutSuffix; fold cutSuffix.
    destruct (String.eqb (String x (s +:+ suffix)) suffix) eqn:Heq.
    + apply String.eqb_eq in Heq.
      apply (f_equal String.length) in Heq. simpl in Heq.
      rewrite length_append in Heq. lia.
    + by rewrite IH.
Qed.

Lemma TrimSuffix_append s suffix : suffix ≠ "" → TrimSuffix (s +:+ suffix) suffix = s.
Proof. intros H. unfold TrimSuffix. by rewrite cutSuffix_append. Qed.

Lemma repeated_Join item sep n :
  n ≠ 0%nat → repeated item sep n = Join (replicate n item) sep +:+ sep.
Proof.
  induction n as [|n IH]; [done |]. intros _.
  destruct n as [|n].
  - simpl. by rewrite append_nil_r.
  - change (repeated item sep (S (S n)))
      with (item +:+ sep +:+ repeated item sep (S n)).
    rewrite IH by done.
    change (Join (replicate (S (S n)) item) sep)
      with (item +:+ sep +:+ Join (replicate (S n) item) sep).
    by rewrite !append_assoc.
Qed.

Lemma count_append c a b : count c (a +:+ b) = (count c a + count c b)%nat.
Proof.
  induction a as [|x a IH]; [done |]. rewrite append_cons. simpl. rewrite IH. lia.
Qed.

Lemma count_Join_marks n : count "?" (Join (replicate n "?") ",") = n.
Proof.
  induction n as [|n IH]; [done |].
  destruct n as [|n]; [done |].
  change (Join (replicate (S (S n)) "?") ",")
    with ("?" +:+ "," +:+ Join (replicate (S n) "?") ",").
  rewrite !count_append, IH. done.
Qed.

End StringFacts.

(** ** The first loop of [SaveAll]: columns and the key *)

Module ScanFacts.
Import Strings StringFacts Spec.

Lemma scanField_eq s f :
  scanField s f =
    if isKey f then
      if autoGenerated f then
        {| columns := columns s; placeholders := placeholders s;
           idAutoIncrement := true; idField := f |}
      else
        {| columns := columns s ++ [storageName f];
           placeholders := placeholders s ++ ["?"];
           idAutoIncrement := false; idField := f |}
    else
      {| columns := columns s ++ [storageName f];
         placeholders := placeholders s ++ ["?"];
         idAutoIncrement := idAutoIncrement s; idField := idField s |}.
Proof.
  unfold scanField, isKey, autoGenerated, storageName.
  destruct (Split (TagDb f) ",") as [|part parts] eqn:Hs.
  { by apply Split_nonempty in Hs. }
  simpl. destruct (String.eqb (TrimSpace part) "id") eqn:Hid; [|done].
  apply String.eqb_eq in Hid.
  case_bool_decide as Hin.
  - rewrite Hid in Hin. apply elem_of_cons in Hin as [Hin|Hin]; [done |].
    destruct parts as [|p parts]; [by apply elem_of_nil in Hin |].
    done.
  - by rewrite andb_false_r.
Qed.

Lemma scanFields_snoc fields f :
  scanFields (fields ++ [f]) = scanField (scanFields fields) f.
Proof. unfold scanFields. by rewrite foldl_app. Qed.

Lemma persisted_snoc fields f :
  persisted (fields ++ [f]) = persisted fields ++ (if omitted f then [] else [f]).
Proof.
  unfold persisted. rewrite filter_app. f_equal.
  rewrite filter_cons, filter_nil. destruct (omitted f); by case_decide.
Qed.

Lemma scanFields_columns fields :
  columns (scanFields fields) = columnList fields
  ∧ placeholders (scanFields fields) = replicate (length (columnList fields)) "?".
Proof.
  induction fields as [|f fields [IHc IHp]] using rev_ind; [done |].
  rewrite scanFields_snoc, scanField_eq. unfold columnList in *.
  rewrite persisted_snoc, fmap_app, length_app.
  unfold omitted. destruct (isKey f), (autoGenerated f); simpl;
    rewrite ?app_nil_r, ?Nat.add_0_r, ?IHc, ?IHp; try done;
    by rewrite Nat.add_1_r, replicate_S_end.
Qed.

(** The key the loop ends with is the last field stored as [id]. *)
Lemma scanFields_key fields :
  match last (filter (λ f, isKey f = true) fields) with
  | Some f => idAutoIncrement (scanFields fields) = autoGenerated f
              ∧ idField (scanFields fields) = f
  | None => idAutoIncrement (scanFields fields) = false
  end.
Proof.
  induction fields as [|f fields IH] using rev_ind; [done |].
  rewrite scanFields_snoc, scanField_eq, filter_app, filter_cons, filter_nil.
  destruct (isKey f) eqn:Hk.
  - rewrite decide_True by done. rewrite last_snoc.
    by destruct (autoGenerated f).
  - rewrite decide_False by done. by rewrite app_nil_r.
Qed.

Lemma scanFields_auto_key fields :
  idAutoIncrement (scanFields fields) = true →
  let f := idField (scanFields fields) in
  f ∈ fields ∧ isKey f = true ∧ autoGenerated f = true.
Proof.
  intros Hauto. pose proof (scanFields_key fields) as H.
  destruct (last _) as [f|] eqn:Hlast; [|congruence].
  destruct H as [Ha ->]. simpl.
  apply last_Some in Hlast as [pre Hpre].
  assert (f ∈ filter (λ f, isKey f = true) fields) as Hin.
  { rewrite Hpre. apply elem_of_app. right. by apply list_elem_of_singleton. }
  apply list_elem_of_filter in Hin as [Hk Hin]. split_and!; [done | done | congruence].
Qed.

(** With at most one field stored as [id], that field decides. *)
Lemma oneKey_key fields f :
  oneKey fields → f ∈ fields → isKey f = true →
  idAutoIncrement (scanFields fields) = autoGenerated f
  ∧ idField (scanFields fields) = f.
Proof.
  intros Hone Hin Hk. pose proof (scanFields_key fields) as H.
  assert (f ∈ filter (λ f, isKey f = true) fields) as Hf
    by (by apply list_elem_of_filter).
  unfold oneKey in Hone.
  destruct (filter (λ f, isKey f = true) fields) as [|g [|g' rest]];
    [by apply elem_of_nil in Hf | | simpl in Hone; lia].
  apply list_elem_of_singleton in Hf as ->. done.
Qed.

Lemma oneKey_skip fields f :
  oneKey fields → f ∈ fields →
  isKey f && idAutoIncrement (scanFields fields) = omitted f.
Proof.
  intros Hone Hin. unfold omitted. destruct (isKey f) eqn:Hk; [|done].
  by destruct (oneKey_key fields f Hone Hin Hk) as [-> _].
Qed.

Lemma readable_spec fields :
  readable fields = true → ∀ f, f ∈ fields → omitted f = false → IsExported f = true.
Proof.
  unfold readable. rewrite forallb_forall. intros H f Hf Hom.
  apply list_elem_of_In in Hf. specialize (H f Hf). by rewrite Hom in H.
Qed.

End ScanFacts.

(** ** The row loop and the back-fill loop *)

Section LoopFacts.
Import Strings StringFacts Spec ScanFacts.

Context (drv : Driver).

Implicit Types (w : World drv) (v : Struct) (fields : list StructField).

Lemma rowValues_notErr auto ev fields i acc :
  notErr (rowValues auto ev fields i acc).
Proof.
  revert i acc. induction fields as [|f fields IH]; intros i acc; simpl; [done |].
  destruct (Split (TagDb f) "," !! 0%nat); [|done].
  destruct (_ && _); [apply IH |].
  destruct (ev ≫= _); [|done]. destruct (IsExported f); [apply IH | done].
Qed.

Lemma storageName_part f :
  ∃ part, Split (TagDb f) "," !! 0%nat = Some part ∧ TrimSpace part = storageName f.
Proof.
  unfold storageName. destruct (Split (TagDb f) ",") as [|part parts] eqn:Hs.
  { by apply Split_nonempty in Hs. }
  by exists part.
Qed.

(** On a struct of the entity's type whose persisted fields are exported,
    the inner loop appends the row of the specification. *)
Lemma rowValues_spec auto fs : ∀ pre xs i acc,
  length pre = i → length xs = length fs →
  (∀ f, f ∈ fs → isKey f && auto = omitted f) →
  (∀ f, f ∈ fs → omitted f = false → IsExported f = true) →
  rowValues auto (Some (pre ++ xs)) fs i acc = Return (acc ++ rowOf fs xs).
Proof.
  induction fs as [|f fs IH]; intros pre xs i acc Hi Hlen Hskip Hexp.
  { simpl. by rewrite app_nil_r. }
  destruct xs as [|x xs]; [done |]. simpl in Hlen.
  simpl. destruct (storageName_part f) as (part & -> & ->).
  fold (isKey f). rewrite (Hskip f) by apply list_elem_of_here.
  assert (pre ++ x :: xs = (pre ++ [x]) ++ xs) as Hsnoc by by rewrite <-app_assoc.
  destruct (omitted f) eqn:Hom.
  - rewrite Hsnoc. apply IH; [rewrite length_app; simpl; lia | lia | |];
      intros g Hg; [apply Hskip | apply Hexp]; by apply list_elem_of_further.
  - rewrite lookup_app_r by lia. replace (i - length pre)%nat with 0%nat by lia.
    simpl. rewrite (Hexp f) by (done || apply list_elem_of_here).
    rewrite Hsnoc, IH; [by rewrite <-app_assoc | rewrite length_app; simpl; lia | lia | |];
      intros g Hg; [apply Hskip | apply Hexp]; by apply list_elem_of_further.
Qed.

(** The row loop leaves the world as it is and never returns an error. *)
Lemma buildRows_world s fields entities : ∀ query values w w' r,
  buildRows drv s fields entities query values w = (w', r) → w' = w ∧ notErr r.
Proof.
  induction entities as [|p entities IH]; intros query values w w' r H; simpl in H.
  { by inversion H. }
  pose proof (rowValues_notErr (idAutoIncrement s) (p ≫= (heap w !!.)) fields 0 values) as Hn.
  destruct (rowValues _ _ _ _ _); [by eapply IH | done | by inversion H].
Qed.

Lemma buildRows_spec s fields entities : ∀ vs query values w,
  Forall2 (holds drv w fields) entities vs →
  (∀ f, f ∈ fields → isKey f && idAutoIncrement s = omitted f) →
  (∀ f, f ∈ fields → omitted f = false → IsExported f = true) →
  buildRows drv s fields entities query values w
  = (w, Return (query +:+ repeated ("(" +:+ Join (placeholders s) "," +:+ ")") "," (length entities),
                values ++ insertArgs fields vs)).
Proof.
  induction entities as [|p entities IH]; intros vs query values w Hvs Hskip Hexp.
  { apply Forall2_nil_inv_l in Hvs as ->. unfold insertArgs. simpl.
    by rewrite append_nil_r, app_nil_r. }
  apply Forall2_cons_inv_l in Hvs as (v & vs' & [Hp Hlen] & Hvs & ->).
  simpl. rewrite Hp.
  pose proof (rowValues_spec (idAutoIncrement s) fields [] v 0%nat values) as Hr.
  simpl in Hr. rewrite Hr by done.
  rewrite IH with (vs := vs') by done.
  unfold insertArgs. rewrite fmap_cons. simpl. rewrite <-app_assoc.
  by rewrite !append_assoc.
Qed.

Lemma fieldByNameFrom_spec fields name : ∀ i k f,
  fieldByNameFrom fields name i = Some (k, f) →
  (i ≤ k)%nat ∧ fields !! (k - i)%nat = Some f ∧ Name f = name.
Proof.
  induction fields as [|g fields IH]; intros i k f H; simpl in H; [done |].
  destruct (String.eqb (Name g) name) eqn:Hn.
  - inversion H; subst. apply String.eqb_eq in Hn.
    by rewrite Nat.sub_diag.
  - apply IH in H as (Hle & Hk & Hname). split; [lia |].
    by replace (k - i)%nat with (S (k - S i)) by lia.
Qed.

Lemma fieldByNameFrom_found fields name : ∀ i g,
  g ∈ fields → Name g = name → is_Some (fieldByNameFrom fields name i).
Proof.
  induction fields as [|h fields IH]; intros i g Hin Hname; [by apply elem_of_nil in Hin |].
  simpl. destruct (String.eqb (Name h) name) eqn:Hn; [done |].
  apply elem_of_cons in Hin as [-> | Hin]; [|by eapply IH].
  rewrite Hname, String.eqb_refl in Hn. done.
Qed.

(** In a well-formed struct type [FieldByName] finds the field itself. *)
Lemma FieldByName_at fields g k :
  wellFormed fields → fields !! k = Some g →
  FieldByName fields (Name g) = Some (k, g).
Proof.
  intros [Hnd Hne] Hg. unfold FieldByName.
  assert (g ∈ fields) as Hin by by eapply list_elem_of_lookup_2.
  destruct (String.eqb (Name g) "") eqn:He.
  { apply String.eqb_eq in He. destruct Hne. rewrite <-He.
    by apply list_elem_of_fmap_2. }
  destruct (fieldByNameFrom_found fields (Name g) 0 g Hin eq_refl) as [[j f] Hf].
  rewrite Hf. apply fieldByNameFrom_spec in Hf as (_ & Hj & Hname).
  rewrite Nat.sub_0_r in Hj.
  assert (j = k) as ->.
  { eapply NoDup_lookup; [exact Hnd | |];
      rewrite list_lookup_fmap; [by rewrite Hj | by rewrite Hg; simpl; rewrite Hname]. }
  congruence.
Qed.

Lemma FieldByName_field fields g :
  wellFormed fields → g ∈ fields →
  ∃ k, FieldByName fields (Name g) = Some (k, g) ∧ fields !! k = Some g.
Proof.
  intros Hwf Hin. apply list_elem_of_lookup in Hin as [k Hk].
  exists k. split; [by apply FieldByName_at | done].
Qed.

(** What the back-fill loop leaves alone, however it ends: the driver, the
    trace, every struct that is not in the list, and in every struct each
    field but the one [FieldByName] finds. *)
Lemma backfill_frame s fields L entities : ∀ i w w' r,
  backfill drv s fields L entities i w = (w', r) →
  db w' = db w ∧ trace w' = trace w ∧ notErr r
  ∧ (∀ l, Some l ∉ entities → heap w' !! l = heap w !! l)
  ∧ (∀ l v, heap w !! l = Some v →
       ∃ v', heap w' !! l = Some v' ∧ length v' = length v
             ∧ ∀ j, (∀ f, FieldByName fields (Name (idField s)) ≠ Some (j, f)) →
                    v' !! j = v !! j).
Proof.
  induction entities as [|p entities IH]; intros i w w' r H; simpl in H.
  { inversion H; subst. split_and!; try done. intros l v Hl. by exists v. }
  destruct p as [l0|]; [|by inversion H; subst; split_and!; eauto].
  destruct (heap w !! l0) as [v0|] eqn:Hl0;
    [|by inversion H; subst; split_and!; eauto].
  destruct (FieldByName fields (Name (idField s))) as [[k f]|] eqn:Hf;
    [|by inversion H; subst; split_and!; eauto].
  unfold bind, SetInt in H.
  destruct (v0 !! k) as [x|] eqn:Hk;
    [|by inversion H; subst; split_and!; eauto].
  destruct (IsExported f);
    [|by inversion H; subst; split_and!; eauto].
  destruct (signedBits (FieldKind f)) as [bits|];
    [|by inversion H; subst; split_and!; eauto].
  apply IH in H as (Hdb & Htr & Hr & Hout & Hin). simpl in *.
  split_and!; try done.
  - intros l Hl. apply not_elem_of_cons in Hl as [Hne Hl].
    rewrite Hout by done. apply lookup_insert_ne. congruence.
  - intros l v Hl. destruct (decide (l = l0)) as [->|Hne].
    + destruct (Hin l0 (<[k:=VInt (wrapSigned bits (addInt64 L (Z.of_nat i)))]> v0))
        as (v' & Hv' & Hlen & Hoff); [by rewrite lookup_insert_eq |].
      exists v'. rewrite length_insert in Hlen.
      assert (v = v0) as -> by congruence. split_and!; [done | done |].
      intros j Hj. rewrite Hoff by done. apply list_lookup_insert_ne.
      intros ->. by apply (Hj f).
    + apply Hin. by rewrite lookup_insert_ne.
Qed.

(** On distinct entities that hold a settable signed key, the loop ends
    normally and entity [j] holds the [j]-th identifier after [L]. *)
Lemma backfill_spec s fields L k f bits :
  FieldByName fields (Name (idField s)) = Some (k, f) →
  IsExported f = true → signedBits (FieldKind f) = Some bits →
  ∀ entities i w,
    NoDup entities →
    (∀ p, p ∈ entities → ∃ l v, p = Some l ∧ heap w !! l = Some v ∧ (k < length v)%nat) →
    ∃ w', backfill drv s fields L entities i w = (w', Return ())
          ∧ ∀ j l v, entities !! j = Some (Some l) → heap w !! l = Some v →
              heap w' !! l
              = Some (<[k := VInt (wrapSigned bits (addInt64 L (Z.of_nat (i + j))))]> v).
Proof.
  intros Hf Hex Hbits. induction entities as [|p entities IH]; intros i w Hnd Hall.
  { exists w. split; [done |]. intros j l v Hj. by rewrite lookup_nil in Hj. }
  apply NoDup_cons in Hnd as [Hp Hnd].
  destruct (Hall p) as (l0 & v0 & -> & Hl0 & Hk); [apply list_elem_of_here |].
  apply lookup_lt_is_Some_2 in Hk as [x Hx].
  set (v1 := <[k := VInt (wrapSigned bits (addInt64 L (Z.of_nat i)))]> v0).
  set (w1 := setHeap drv (<[l0 := v1]> (heap w)) w).
  assert (∀ l, Some l ∈ entities → heap w1 !! l = heap w !! l) as Hsame.
  { intros l Hl. simpl. apply lookup_insert_ne. intros ->. done. }
  destruct (IH (S i) w1 Hnd) as (w' & Hrun & Hval).
  { intros p Hin. destruct (Hall p) as (l & v & -> & Hl & Hlen);
      [by apply list_elem_of_further |].
    exists l, v. by rewrite Hsame. }
  exists w'. split.
  - simpl. rewrite Hl0, Hf. unfold bind, SetInt. rewrite Hx, Hex, Hbits. exact Hrun.
  - intros j l v Hj Hl. destruct j as [|j]; simpl in Hj.
    + inversion Hj; subst l. assert (v = v0) as -> by congruence.
      apply backfill_frame in Hrun as (_ & _ & _ & Hout & _).
      rewrite Hout by done. simpl. rewrite lookup_insert_eq.
      by rewrite Nat.add_0_r.
    + rewrite (Hval j l v); [by replace (S i + j)%nat with (i + S j)%nat by lia | done |].
      rewrite Hsame; [done |]. by eapply list_elem_of_lookup_2.
Qed.

End LoopFacts.

(** ** [SaveAll] as one statement followed by the back-fill *)

Section SaveAllFacts.
Import Strings StringFacts Spec ScanFacts.

Context (drv : Driver) (E : GoType) (idType : string) (methods : EntityMethods).

Implicit Types (w : World drv) (fields : list StructField).

Lemma SaveAll_run fields entities v0 vs w :
  structFields E = Some fields →
  assertEntity E idType = true →
  Forall2 (holds drv w fields) entities (v0 :: vs) →
  oneKey fields →
  (∀ f, f ∈ fields → omitted f = false → IsExported f = true) →
  SaveAll drv E idType methods entities w
  = afterRows drv fields entities
      (insertQuery (GetTableName methods v0) fields (length entities))
      (insertArgs fields (v0 :: vs)) w.
Proof.
  intros Hfields Hassert Hvs Hone Hexp.
  destruct entities as [|p0 rest]; [by apply Forall2_nil_inv_l in Hvs |].
  pose proof Hvs as Hvs'.
  apply Forall2_cons_1 in Hvs' as [[Hp0 _] _].
  unfold SaveAll. simpl length. simpl (_ =? _)%nat. simpl (_ !! _).
  cbv beta iota. rewrite Hp0, Hassert, Hfields. simpl negb. cbv iota.
  unfold bind at 1.
  rewrite buildRows_spec with (vs := v0 :: vs); [| done | | done].
  2:{ intros f Hf. by apply oneKey_skip. }
  destruct (scanFields_columns fields) as [-> ->].
  cbv beta iota. simpl fst. simpl snd.
  unfold afterRows, insertQuery, placeholderGroup.
  set (g := "(" +:+ Join (replicate (length (columnList fields)) "?") "," +:+ ")").
  change (g +:+ "," +:+ repeated g "," (length rest))
    with (repeated g "," (S (length rest))).
  rewrite repeated_Join by done.
  rewrite <-!append_assoc, TrimSuffix_append by done.
  rewrite !append_assoc. reflexivity.
Qed.

(** Whatever the entities, [SaveAll] issues at most one statement, an
    [Exec], and an error it returns from the driver is the driver's. *)
Lemma afterRows_world fields entities query args w w' r :
  afterRows drv fields entities query args w = (w', r) →
  trace w' = trace w ++ [CExec query args]
  ∧ match r with Err (Errorf _) => False | _ => True end.
Proof.
  unfold afterRows, bind, DB_Exec. intros H.
  destruct (Exec drv (db w) query args) as [d [msg|result]]; simpl in H.
  { by inversion H. }
  destruct (idAutoIncrement (scanFields fields)); [|by inversion H].
  destruct (LastInsertId drv result) as [msg|L]; simpl in H; [by inversion H |].
  apply backfill_frame in H as (_ & -> & Hr & _). split; [done |].
  by destruct r as [| [] |].
Qed.

(** The back-fill is the only part that touches the store. *)
Lemma afterRows_heap fields entities query args w w' r :
  afterRows drv fields entities query args w = (w', r) →
  heap w' = heap w
  ∨ idAutoIncrement (scanFields fields) = true
    ∧ ∃ L w1, heap w1 = heap w
              ∧ backfill drv (scanFields fields) fields L entities 0 w1 = (w', r).
Proof.
  unfold afterRows, bind, DB_Exec. intros H.
  destruct (Exec drv (db w) query args) as [d [msg|result]]; simpl in H.
  { left. injection H as <- <-; reflexivity. }
  destruct (idAutoIncrement (scanFields fields)); [|left; injection H as <- <-; reflexivity].
  destruct (LastInsertId drv result) as [msg|L]; simpl in H; [left; injection H as <- <-; reflexivity |].
  right. split; [done |].
  exists L, (issue drv (CExec query args) d w). split; [reflexivity | exact H].
Qed.

(** The ways [SaveAll] can end. *)
Lemma SaveAll_cons p0 rest w :
  SaveAll drv E idType methods (p0 :: rest) w
  = match p0 ≫= (heap w !!.) with
    | None => (w, Panic)
    | Some firstValue =>
        if negb (assertEntity E idType) then (w, Err notEntity)
        else match structFields E with
             | None => (w, Panic)
             | Some fields =>
                 bind (buildRows drv (scanFields fields) fields (p0 :: rest)
                         ("INSERT INTO " +:+ GetTableName methods firstValue +:+ " ("
                          +:+ Join (columns (scanFields fields)) "," +:+ ") VALUES ") [])
                      (λ qv, afterRows drv fields (p0 :: rest) (TrimSuffix qv.1 ",") qv.2) w
             end
    end.
Proof. reflexivity. Qed.

Lemma SaveAll_inv entities w w' r :
  SaveAll drv E idType methods entities w = (w', r) →
  (entities = [] ∧ w' = w ∧ r = Return ())
  ∨ (w' = w ∧ r = Panic)
  ∨ (w' = w ∧ r = Err (notEntity) ∧ assertEntity E idType = false)
  ∨ (∃ fields query args,
       structFields E = Some fields ∧ assertEntity E idType = true
       ∧ afterRows drv fields entities query args w = (w', r)).
Proof.
  destruct entities as [|p0 rest].
  { intros H. left. by inversion H. }
  rewrite SaveAll_cons.
  destruct (p0 ≫= _) as [v0|]; [|intros H; right; left; by inversion H].
  destruct (assertEntity E idType); simpl negb; cbv iota;
    [|intros H; right; right; left; by inversion H].
  destruct (structFields E) as [fields|]; [|intros H; right; left; by inversion H].
  unfold bind at 1.
  destruct (buildRows drv _ _ _ _ _ _) as [w1 [[q args]| e |]] eqn:Hb;
    apply buildRows_world in Hb as [-> Hn]; try done.
  - intros H. right; right; right. by exists fields, (TrimSuffix q ","), args.
  - intros H. right; left. by inversion H.
Qed.

(** A type that satisfies the bound [E Entity[ID]] and is a defined type
    passes the assertion made on [*E]. *)
Lemma defined_assertEntity d :
  E = TDefined d → implements E (Entity idType) = true → assertEntity E idType = true.
Proof.
  intros -> H. unfold assertEntity, implements in *. simpl in *.
  repeat (apply andb_prop in H as [?%bool_decide_eq_true H]).
  repeat (apply andb_true_intro; split; [apply bool_decide_eq_true; set_solver |]).
  done.
Qed.

Lemma structFields_defined fields :
  structFields E = Some fields → ∃ d, E = TDefined d ∧ underlying d = UStruct fields.
Proof.
  unfold structFields. destruct E as [d| |]; [|done..].
  destruct (underlying d) eqn:Hu; [|done]. intros [= ->]. by exists d.
Qed.

(** *** Rows scanned into fresh entities *)

Lemma newAll_spec rows : ∀ w,
  ∃ w' ps, newAll drv rows w = (w', Return ps)
           ∧ db w' = db w ∧ trace w' = trace w
           ∧ Forall2 (λ p r, p ≫= (heap w' !!.) = Some r) ps rows
           ∧ (∀ l v, heap w !! l = Some v → heap w' !! l = Some v).
Proof.
  induction rows as [|row rows IH]; intros w.
  { exists w, []. split_and!; try done. }
  set (l := fresh (dom (heap w))).
  set (w1 := setHeap drv (<[l := row]> (heap w)) w).
  destruct (IH w1) as (w' & ps & Hrun & Hdb & Htr & Hps & Hkeep).
  assert (heap w !! l = None) as Hfresh.
  { apply not_elem_of_dom. apply is_fresh. }
  exists w', (Some l :: ps). split_and!; try done.
  - simpl. unfold bind, new. fold l. fold w1. by rewrite Hrun.
  - constructor; [|done]. simpl. apply Hkeep. simpl. by rewrite lookup_insert_eq.
  - intros l' v Hl'. apply Hkeep. simpl. rewrite lookup_insert_ne; [done |].
    intros <-. congruence.
Qed.

(** *** The [IN] clause *)

Lemma bindIDs_spec (ids : list ID) : ∀ (strs : list string) (args : list value),
  length args = length strs →
  bindIDs ids (length strs)
    (strs ++ replicate (length ids) "") (args ++ replicate (length ids) VNil)
  = (strs ++ replicate (length ids) "?", args ++ ids).
Proof.
  induction ids as [|id ids IH]; intros strs args Hlen; [done |].
  simpl. rewrite !insert_app_r_alt by lia. rewrite Hlen, !Nat.sub_diag. simpl.
  rewrite !cons_middle, !app_assoc.
  replace (S (length strs)) with (length (strs ++ ["?"]))
    by (rewrite length_app; simpl; lia).
  rewrite IH; [by rewrite <-!app_assoc | rewrite !length_app; simpl; lia].
Qed.

Lemma inClause_spec (ids : list ID) :
  inClause ids = ("IN (" +:+ Join (replicate (length ids) "?") "," +:+ ")", ids).
Proof.
  unfold inClause.
  pose proof (bindIDs_spec ids [] [] eq_refl) as H. simpl in H. by rewrite H.
Qed.

(** *** The loop of [DeleteEntities] *)

Lemma collectIDs_spec entities : ∀ vs ids w,
  assertEntity E idType = true →
  Forall2 (λ p v, p ≫= (heap w !!.) = Some v) entities vs →
  collectIDs drv E idType methods entities ids w
  = (w, Return (ids ++ (GetID methods <$> vs))).
Proof.
  induction entities as [|p entities IH]; intros vs ids w Ha Hvs.
  { apply Forall2_nil_inv_l in Hvs as ->. simpl. by rewrite app_nil_r. }
  apply Forall2_cons_inv_l in Hvs as (v & vs' & Hp & Hvs & ->).
  simpl. rewrite Ha. unfold bind, deref. rewrite Hp.
  rewrite IH with (vs := vs') by done. by rewrite <-app_assoc.
Qed.

End SaveAllFacts.

(** ** The properties of the repository *)

Section Properties.
Import Strings StringFacts Spec ScanFacts.

Context (drv : Driver) (E : GoType) (idType : string) (methods : EntityMethods).

Implicit Types (w : World drv) (fields : list StructField).

(** C5. [SaveAll] on an empty list returns success and leaves the world,
    the trace of issued statements included, exactly as it was: no
    statement reaches the database. *)
Theorem SaveAll_empty_is_noop w :
  SaveAll drv E idType methods [] w = (w, Return ()).
Proof. reflexivity. Qed.

Lemma DB_Select_trace query args w :
  trace (DB_Select drv query args w).1 = trace w ++ [CSelect query args].
Proof.
  unfold DB_Select, bind.
  destruct (Select drv (db w) query args) as [d [msg|rows]]; [done |].
  simpl fromDriver. cbv iota.
  destruct (newAll_spec drv rows (issue drv (CSelect query args) d w))
    as (w' & ps & Hrun & _ & Htr & _).
  rewrite Hrun. simpl. by rewrite Htr.
Qed.

(** C3. For a defined entity type, [FindAllByID] and [DeleteByIDs] build
    an [IN (...)] clause with one placeholder per identifier and bind the
    identifiers in order, and each issues exactly that one statement;
    for no identifiers the clause is [IN ()] and the statement is issued
    all the same. *)
Theorem in_clause_one_placeholder_per_id (ids : list ID) d w :
  E = TDefined d →
  let table := GetTableName methods (zeroValue d) in
  inClause ids = ("IN (" +:+ Join (replicate (length ids) "?") "," +:+ ")", ids)
  ∧ count "?" (inClause ids).1 = length ids
  ∧ trace (FindAllByID drv E methods ids w).1
    = trace w ++ [CSelect ("SELECT * FROM " +:+ table +:+ " WHERE id " +:+ (inClause ids).1) ids]
  ∧ trace (DeleteByIDs drv E methods ids w).1
    = trace w ++ [CExec ("DELETE FROM " +:+ table +:+ " WHERE id " +:+ (inClause ids).1) ids]
  ∧ (ids = [] →
     (inClause ids).1 = "IN ()"
     ∧ trace (FindAllByID drv E methods ids w).1
       = trace w ++ [CSelect ("SELECT * FROM " +:+ table +:+ " WHERE id IN ()") []]
     ∧ trace (DeleteByIDs drv E methods ids w).1
       = trace w ++ [CExec ("DELETE FROM " +:+ table +:+ " WHERE id IN ()") []]).
Proof.
  intros -> table.
  assert (trace (FindAllByID drv (TDefined d) methods ids w).1
          = trace w ++ [CSelect ("SELECT * FROM " +:+ table +:+ " WHERE id " +:+ (inClause ids).1) ids])
    as Hfind.
  { unfold FindAllByID, emptyEntityTableName, bind, ret.
    rewrite inClause_spec. apply DB_Select_trace. }
  assert (trace (DeleteByIDs drv (TDefined d) methods ids w).1
          = trace w ++ [CExec ("DELETE FROM " +:+ table +:+ " WHERE id " +:+ (inClause ids).1) ids])
    as Hdel.
  { unfold DeleteByIDs, emptyEntityTableName, bind at 1, ret.
    rewrite inClause_spec. unfold bind, DB_Exec.
    by destruct (Exec drv (db w) _ ids) as [d' [msg|result]]. }
  split_and!; [apply inClause_spec | | done | done |].
  - rewrite inClause_spec. simpl fst.
    rewrite !count_append, count_Join_marks. simpl. lia.
  - intros ->. by split_and!.
Qed.

(** C4. When [FindAllByID([id])] returns its entities, [FindByID] and
    [ExistsByID] end in the same world; both fail with the not-found error
    exactly when the entities are none, and otherwise [FindByID] returns
    the first of them and [ExistsByID] returns no error (it has no other
    result). *)
Theorem FindByID_ExistsByID_from_FindAllByID (id : ID) w w' (entities : list ptr) :
  FindAllByID drv E methods [id] w = (w', Return entities) →
  (FindByID drv E methods id w = (w', Err notFound) ↔ entities = [])
  ∧ (ExistsByID drv E methods id w = (w', Err notFound) ↔ entities = [])
  ∧ (∀ first rest, entities = first :: rest →
       FindByID drv E methods id w = (w', Return first)
       ∧ ExistsByID drv E methods id w = (w', Return ())).
Proof.
  intros H. unfold FindByID, ExistsByID, bind. rewrite H.
  destruct entities as [|first rest]; simpl.
  - split_and!; [done | done |]. intros ?? [=].
  - split_and!; [split; intros [=] | split; intros [=] |].
    intros ?? [= <- <-]. done.
Qed.

(** C6. For a defined entity type, when the page query and the count
    query succeed, [FindAllPaginated] issues exactly these two statements,
    [SELECT * FROM <table> LIMIT ? OFFSET ?] with the limit and the offset
    bound and then [SELECT COUNT( * ) FROM <table>] with nothing bound, and
    returns the request it was given, the count the second query reported,
    and one fresh entity per row of the page, in order; entities already
    in the store are kept. *)
Theorem FindAllPaginated_page_and_total (pagination : Pagination) d w
    (d1 d2 : DBState drv) (rows : list Struct) (total : Z) :
  E = TDefined d →
  let table := GetTableName methods (zeroValue d) in
  let page := "SELECT * FROM " +:+ table +:+ " LIMIT ? OFFSET ?" in
  let args := [VInt (Limit pagination); VInt (Offset pagination)] in
  let count := "SELECT COUNT(*) FROM " +:+ table in
  Select drv (db w) page args = (d1, inr rows) →
  Get drv d1 count [] = (d2, inr total) →
  ∃ w' (entities : list ptr),
    FindAllPaginated drv E methods pagination w
    = (w', Return {| PaginationOf := pagination; TotalCount := total; Results := entities |})
    ∧ trace w' = trace w ++ [CSelect page args; CGet count []]
    ∧ db w' = d2
    ∧ Forall2 (λ p row, p ≫= (heap w' !!.) = Some row) entities rows
    ∧ (∀ l v, heap w !! l = Some v → heap w' !! l = Some v).
Proof.
  intros -> table page args count Hsel Hget.
  destruct (newAll_spec drv rows (issue drv (CSelect page args) d1 w))
    as (w1 & ps & Hrun & Hdb & Htr & Hps & Hkeep).
  exists (issue drv (CGet count []) d2 w1), ps. split_and!; try done.
  - unfold FindAllPaginated, emptyEntityTableName, bind at 1, ret.
    fold table. fold page. fold count. fold args.
    unfold bind at 1, DB_Select, bind at 1. rewrite Hsel.
    simpl fromDriver. cbv iota. rewrite Hrun.
    unfold bind, DB_Get. rewrite Hdb. simpl db. by rewrite Hget.
  - simpl. rewrite Htr. simpl. by rewrite <-app_assoc.
Qed.

(** C7. [Save], [DeleteByID] and [DeleteEntity] are their bulk operation
    on a one-element list; and for an entity type that is a defined type
    within the bound, [DeleteEntities] on entities held in the store is
    [DeleteByIDs] on their keys, in order. *)
Theorem singleton_is_bulk_on_one (e : ptr) (id : ID) (entities : list ptr)
    (vs : list Struct) w :
  Save drv E idType methods e w = SaveAll drv E idType methods [e] w
  ∧ DeleteByID drv E methods id w = DeleteByIDs drv E methods [id] w
  ∧ DeleteEntity drv E idType methods e w = DeleteEntities drv E idType methods [e] w
  ∧ (∀ d, E = TDefined d →
       implements E (Entity idType) = true →
       Forall2 (λ p v, p ≫= (heap w !!.) = Some v) entities vs →
       DeleteEntities drv E idType methods entities w
       = DeleteByIDs drv E methods (GetID methods <$> vs) w).
Proof.
  split_and!; [reflexivity.. |]. intros d HE Hbound Hvs.
  unfold DeleteEntities, bind.
  rewrite (collectIDs_spec drv E idType methods entities vs [] w);
    [done | by eapply defined_assertEntity | done].
Qed.

Lemma wrapSigned_small bits x :
  0 < bits → - 2 ^ (bits - 1) ≤ x < 2 ^ (bits - 1) → wrapSigned bits x = x.
Proof.
  intros Hb Hx. unfold wrapSigned.
  assert (2 ^ bits = 2 * 2 ^ (bits - 1)) as Hp.
  { rewrite <-Z.pow_succ_r by lia. f_equal. lia. }
  rewrite Z.mod_small by lia. lia.
Qed.

Lemma signedBits_range k bits : signedBits k = Some bits → 0 < bits ≤ 64.
Proof. destruct k; intros [= <-]; lia. Qed.

Lemma holds_pointer w fields (p : ptr) (v : Struct) :
  holds drv w fields p v → ∃ l, p = Some l ∧ heap w !! l = Some v.
Proof. intros [Hp _]. destruct p as [l|]; [|done]. by exists l. Qed.

(** C2. For an entity type within the bound whose struct has at most one
    field stored as [id] and whose persisted fields are exported, and for
    a non-empty list of entities held in the store: the columns the first
    loop derives are the storage names of the fields that are not an
    auto-generated key, and [SaveAll] issues exactly one statement, the
    multi-row [INSERT INTO <table> (<columns>) VALUES (?,..),(?,..),...] with
    one group per entity, binding per entity the values of those same
    fields in field order. *)
Theorem SaveAll_issues_one_multirow_insert fields entities v0 vs w :
  structFields E = Some fields →
  implements E (Entity idType) = true →
  oneKey fields →
  readable fields = true →
  Forall2 (holds drv w fields) entities (v0 :: vs) →
  columns (scanFields fields) = columnList fields
  ∧ placeholders (scanFields fields) = replicate (length (columnList fields)) "?"
  ∧ trace (SaveAll drv E idType methods entities w).1
    = trace w ++ [CExec (insertQuery (GetTableName methods v0) fields (length entities))
                        (insertArgs fields (v0 :: vs))].
Proof.
  intros Hf Hbound Hone Hread Hvs.
  pose proof (readable_spec fields Hread) as Hexp.
  destruct (structFields_defined E fields Hf) as (d & HE & _).
  pose proof (defined_assertEntity E idType d HE Hbound) as Hassert.
  destruct (scanFields_columns fields) as [Hc Hp]. split_and!; [done | done |].
  rewrite (SaveAll_run drv E idType methods fields entities v0 vs w) by done.
  destruct (afterRows _ _ _ _ _ _) as [w' r] eqn:Hrun.
  by apply afterRows_world in Hrun as [Htr _].
Qed.

(** C1, as amended. For an entity type within the bound whose key field is
    auto-generated, exported and of a signed integer kind, and for a
    non-empty list of pairwise distinct entities held in the store: when
    the insert succeeds and the driver reports [L] as the last insert id,
    [SaveAll] succeeds and the entity at position [i] is left with
    [L + i], computed in [int64] and converted to the key's type, in its key
    field; when [L .. L + N - 1] fits the key's type that is [L + i] itself,
    so the identifiers are consecutive and increasing from [L]. *)
Theorem SaveAll_backfills_consecutive_ids fields k key bits entities v0 vs w
    (d : DBState drv) (result : SqlResult drv) (L : Z) :
  structFields E = Some fields →
  implements E (Entity idType) = true →
  wellFormed fields → oneKey fields →
  readable fields = true →
  fields !! k = Some key → isKey key = true → autoGenerated key = true →
  IsExported key = true → signedBits (FieldKind key) = Some bits →
  NoDup entities →
  Forall2 (holds drv w fields) entities (v0 :: vs) →
  Exec drv (db w) (insertQuery (GetTableName methods v0) fields (length entities))
       (insertArgs fields (v0 :: vs)) = (d, inr result) →
  LastInsertId drv result = inr L →
  ∃ w',
    SaveAll drv E idType methods entities w = (w', Return ())
    ∧ ∀ i l v, entities !! i = Some (Some l) → heap w !! l = Some v →
        heap w' !! l = Some (<[k := VInt (wrapSigned bits (addInt64 L (Z.of_nat i)))]> v)
        ∧ (- 2 ^ (bits - 1) ≤ L → L + Z.of_nat (length entities) ≤ 2 ^ (bits - 1) →
           heap w' !! l = Some (<[k := VInt (L + Z.of_nat i)]> v)).
Proof.
  intros Hf Hbound Hwf Hone Hread Hlook Hk Hauto Hex Hbits Hnd Hvs Hexec Hlast.
  pose proof (readable_spec fields Hread) as Hexp.
  assert (key ∈ fields) as Hkey by by eapply list_elem_of_lookup_2.
  destruct (structFields_defined E fields Hf) as (d0 & HE & _).
  pose proof (defined_assertEntity E idType d0 HE Hbound) as Hassert.
  destruct (oneKey_key fields key Hone Hkey Hk) as [Hai Hid].
  pose proof (FieldByName_at fields key k Hwf Hlook) as Hfind.
  set (w1 := issue drv (CExec (insertQuery (GetTableName methods v0) fields (length entities))
                              (insertArgs fields (v0 :: vs))) d w).
  destruct (backfill_spec drv (scanFields fields) fields L k key bits) with
    (entities := entities) (i := 0%nat) (w := w1) as (w' & Hrun & Hval);
    [by rewrite Hid | done | done | done | |].
  { intros p Hp. apply list_elem_of_lookup in Hp as [i Hi].
    destruct (Forall2_lookup_l _ _ _ _ _ Hvs Hi) as (v & _ & Hholds).
    destruct (holds_pointer _ _ _ _ Hholds) as (l & -> & Hl).
    exists l, v. split_and!; [done | done |].
    destruct Hholds as [_ ->]. by eapply lookup_lt_Some. }
  exists w'. split.
  - rewrite (SaveAll_run drv E idType methods fields entities v0 vs w) by done.
    unfold afterRows, bind at 1, DB_Exec. rewrite Hexec. simpl fromDriver. cbv iota.
    rewrite Hai, Hauto. unfold bind at 1. rewrite Hlast. exact Hrun.
  - intros i l v Hi Hl.
    assert (heap w' !! l
            = Some (<[k := VInt (wrapSigned bits (addInt64 L (Z.of_nat i)))]> v)) as Hres
      by by apply (Hval i l v).
    split; [done |]. intros Hlo Hhi. rewrite Hres.
    apply lookup_lt_Some in Hi. apply signedBits_range in Hbits.
    assert (2 ^ (bits - 1) ≤ 2 ^ 63) by (apply Z.pow_le_mono_r; lia).
    unfold addInt64. rewrite (wrapSigned_small 64) by (simpl; lia).
    by rewrite wrapSigned_small by lia.
Qed.

(** C9. A successful [SaveAll] on a well-formed struct type changes, in the
    store, at most the auto-generated key field of the entities passed:
    when no field is an auto-generated key the store is left as it was; a
    struct that was not passed is left as it was; and every struct keeps
    its size and every field that is not an auto-generated key. *)
Theorem SaveAll_changes_only_generated_key fields entities w w' :
  structFields E = Some fields →
  wellFormed fields →
  SaveAll drv E idType methods entities w = (w', Return ()) →
  ((∀ f, f ∈ fields → omitted f = false) → heap w' = heap w)
  ∧ (∀ l, Some l ∉ entities → heap w' !! l = heap w !! l)
  ∧ (∀ l v, heap w !! l = Some v →
       ∃ v', heap w' !! l = Some v' ∧ length v' = length v
             ∧ ∀ j f, fields !! j = Some f → omitted f = false → v' !! j = v !! j).
Proof.
  intros Hf Hwf Hrun.
  assert (heap w' = heap w → ∀ l v, heap w !! l = Some v →
            ∃ v', heap w' !! l = Some v' ∧ length v' = length v
                  ∧ ∀ j f, fields !! j = Some f → omitted f = false → v' !! j = v !! j)
    as Hsame.
  { intros -> l v Hl. by exists v. }
  apply SaveAll_inv in Hrun
    as [(_ & -> & _) | [[_ [=]] | [(_ & [=] & _) | (fields' & q & args & Hf' & _ & Hrun)]]].
  { split_and!; [done | done | by apply Hsame]. }
  assert (fields' = fields) as -> by congruence.
  apply afterRows_heap in Hrun as [Heq | (Hauto & L & w1 & Hw1 & Hrun)].
  { split_and!; [done | by rewrite Heq | by apply Hsame]. }
  destruct (scanFields_auto_key fields Hauto) as (Hin & Hk & Ha).
  destruct (FieldByName_field fields _ Hwf Hin) as (k & Hfind & Hlook).
  apply backfill_frame in Hrun as (_ & _ & _ & Hout & Hfr).
  rewrite Hw1 in Hout, Hfr. split_and!.
  - intros Hno. specialize (Hno _ Hin). unfold omitted in Hno.
    by rewrite Hk, Ha in Hno.
  - done.
  - intros l v Hl. destruct (Hfr l v Hl) as (v' & Hv' & Hlen & Hoff).
    exists v'. split_and!; [done | done |].
    intros j f Hj Hom. apply Hoff. intros f' Hfj.
    rewrite Hfind in Hfj. injection Hfj as <- <-.
    assert (f = idField (scanFields fields)) as -> by congruence.
    unfold omitted in Hom. by rewrite Hk, Ha in Hom.
Qed.

(** C10. For an entity type within the bound whose auto-generated key field
    is not of a signed integer kind, on a non-empty list: the back-fill loop
    panics at its first entity; [SaveAll] never returns success, it panics
    or returns the driver's error; and when the entities are held in the
    store, the insert succeeds and the driver reports a last insert id,
    [SaveAll] panics with the statement already executed. *)
Theorem SaveAll_backfill_needs_signed_key fields k key entities :
  structFields E = Some fields →
  implements E (Entity idType) = true →
  wellFormed fields → oneKey fields →
  fields !! k = Some key → isKey key = true → autoGenerated key = true →
  signedBits (FieldKind key) = None →
  entities ≠ [] →
  (∀ L i w, backfill drv (scanFields fields) fields L entities i w = (w, Panic))
  ∧ (∀ w w' r, SaveAll drv E idType methods entities w = (w', r) →
       r = Panic ∨ ∃ msg, r = Err (DriverError msg))
  ∧ (∀ w v0 vs d result L,
       readable fields = true →
       Forall2 (holds drv w fields) entities (v0 :: vs) →
       let query := insertQuery (GetTableName methods v0) fields (length entities) in
       let args := insertArgs fields (v0 :: vs) in
       Exec drv (db w) query args = (d, inr result) →
       LastInsertId drv result = inr L →
       SaveAll drv E idType methods entities w = (issue drv (CExec query args) d w, Panic)).
Proof.
  intros Hf Hbound Hwf Hone Hlook Hk Hauto Hbits Hne.
  assert (key ∈ fields) as Hkey by by eapply list_elem_of_lookup_2.
  destruct (structFields_defined E fields Hf) as (d0 & HE & _).
  pose proof (defined_assertEntity E idType d0 HE Hbound) as Hassert.
  destruct (oneKey_key fields key Hone Hkey Hk) as [Hai Hid].
  pose proof (FieldByName_at fields key k Hwf Hlook) as Hfind.
  assert (∀ L i w, backfill drv (scanFields fields) fields L entities i w = (w, Panic))
    as Hpanic.
  { intros L i w. destruct entities as [|[l|] rest]; [done | | done].
    simpl. destruct (heap w !! l) as [v|]; [|done].
    rewrite Hid, Hfind. unfold bind, SetInt. rewrite Hbits.
    by destruct (v !! k), (IsExported key). }
  split_and!; [done | |].
  - intros w w' r Hrun.
    apply SaveAll_inv in Hrun
      as [(-> & _) | [[_ ->] | [(_ & _ & Hno) | (fields' & q & args & Hf' & _ & Hrun)]]];
      [done | by left | congruence |].
    assert (fields' = fields) as -> by congruence.
    unfold afterRows, bind, DB_Exec in Hrun.
    destruct (Exec drv (db w) q args) as [d [msg|result]]; simpl in Hrun.
    { right. exists msg. by injection Hrun as _ <-. }
    rewrite Hai, Hauto in Hrun.
    destruct (LastInsertId drv result) as [msg|L]; simpl in Hrun.
    { right. exists msg. by injection Hrun as _ <-. }
    left. rewrite Hpanic in Hrun. by injection Hrun as _ <-.
  - intros w v0 vs d result L Hread Hvs query args Hexec Hlast.
    pose proof (readable_spec fields Hread) as Hexp.
    rewrite (SaveAll_run drv E idType methods fields entities v0 vs w) by done.
    unfold afterRows, bind at 1, DB_Exec. fold query. fold args.
    rewrite Hexec. simpl fromDriver. cbv iota.
    rewrite Hai, Hauto. unfold bind. rewrite Hlast. simpl fromDriver. cbv iota.
    apply Hpanic.
Qed.

(** C8, as amended. With a first entity held in the store, [SaveAll]
    returns the not-an-entity error, before any statement and with the
    world untouched, exactly when [*E] does not have the methods of
    [Entity[ID]].  That cannot happen when [E] is a defined type within the
    bound, and always happens when [E] is itself a pointer type or an
    interface type, bound or not. *)
Theorem SaveAll_validation_error_iff l v rest w :
  heap w !! l = Some v →
  (assertEntity E idType = false →
     SaveAll drv E idType methods (Some l :: rest) w = (w, Err notEntity))
  ∧ (∀ w', SaveAll drv E idType methods (Some l :: rest) w = (w', Err notEntity) →
       assertEntity E idType = false ∧ w' = w)
  ∧ (∀ d, E = TDefined d → implements E (Entity idType) = true →
       assertEntity E idType = true)
  ∧ (∀ t, E = TPointer t → assertEntity E idType = false)
  ∧ (∀ ms, E = TInterface ms → assertEntity E idType = false).
Proof.
  intros Hl. split_and!.
  - intros Ha. rewrite SaveAll_cons. simpl. by rewrite Hl, Ha.
  - intros w' Hrun.
    apply SaveAll_inv in Hrun
      as [([=] & _) | [[_ [=]] | [(-> & _ & Hno) | (fields & q & args & _ & _ & Hrun)]]];
      [done |].
    by apply afterRows_world in Hrun as [_ []].
  - intros d. apply defined_assertEntity.
  - by intros t ->.
  - by intros ms ->.
Qed.

End Properties.

(** ** The properties on the sample entity *)

Section Examples.
Import Sample Scenario Spec.

Local Ltac decided := refine (bool_decide_unpack _ _); vm_compute; exact I.

Local Ltac held := repeat constructor; reflexivity.

(** [FindAllByID([1, 3])] on the sample entity issues one [SELECT] with two
    placeholders. *)
Lemma in_clause_on_sample :
  SampleEntity = TDefined decl
  ∧ inClause [VInt 1; VInt 3] = ("IN (?,?)", [VInt 1; VInt 3])
  ∧ trace (FindAllByID MemDB.driver SampleEntity methods [VInt 1; VInt 3] twoRows).1
    = [CSelect "SELECT * FROM sample_entities WHERE id IN (?,?)" [VInt 1; VInt 3]]
  ∧ trace (DeleteByIDs MemDB.driver SampleEntity methods [] twoRows).1
    = [CExec "DELETE FROM sample_entities WHERE id IN ()" []].
Proof.
  split; [reflexivity |].
  destruct (in_clause_one_placeholder_per_id MemDB.driver SampleEntity methods
              [VInt 1; VInt 3] decl twoRows eq_refl) as (Hc & _ & Hf & _).
  destruct (in_clause_one_placeholder_per_id MemDB.driver SampleEntity methods
              [] decl twoRows eq_refl) as (_ & _ & _ & _ & He).
  destruct (He eq_refl) as (_ & _ & Hd).
  split_and!; [exact Hc | exact Hf | exact Hd].
Defined.

(** On a table holding keys 1 and 2: key 1 is found, key 9 is not. *)
Lemma find_and_exists_on_sample :
  let found := @Build_World MemDB.driver (<[0%nat := entity 1 "test"]> ∅) (db twoRows)
                 [CSelect "SELECT * FROM sample_entities WHERE id IN (?)" [VInt 1]] in
  let missing := @Build_World MemDB.driver ∅ (db twoRows)
                 [CSelect "SELECT * FROM sample_entities WHERE id IN (?)" [VInt 9]] in
  FindAllByID MemDB.driver SampleEntity methods [VInt 1] twoRows = (found, Return [Some 0%nat])
  ∧ FindByID MemDB.driver SampleEntity methods (VInt 1) twoRows = (found, Return (Some 0%nat))
  ∧ ExistsByID MemDB.driver SampleEntity methods (VInt 1) twoRows = (found, Return ())
  ∧ FindAllByID MemDB.driver SampleEntity methods [VInt 9] twoRows = (missing, Return [])
  ∧ FindByID MemDB.driver SampleEntity methods (VInt 9) twoRows = (missing, Err notFound)
  ∧ ExistsByID MemDB.driver SampleEntity methods (VInt 9) twoRows = (missing, Err notFound).
Proof.
  intros found missing.
  assert (FindAllByID MemDB.driver SampleEntity methods [VInt 1] twoRows
          = (found, Return [Some 0%nat])) as H1 by (vm_compute; reflexivity).
  assert (FindAllByID MemDB.driver SampleEntity methods [VInt 9] twoRows
          = (missing, Return [])) as H9 by (vm_compute; reflexivity).
  destruct (FindByID_ExistsByID_from_FindAllByID _ _ _ _ _ _ _ H1) as (_ & _ & Hsome).
  destruct (FindByID_ExistsByID_from_FindAllByID _ _ _ _ _ _ _ H9) as (Hf & He & _).
  destruct (Hsome _ _ eq_refl) as [Hf1 He1].
  split_and!; [exact H1 | exact Hf1 | exact He1 | exact H9
               | exact (proj2 Hf eq_refl) | exact (proj2 He eq_refl)].
Defined.

(** On a table of two rows, [{limit: 1, offset: 0}] gives the first row and
    [{limit: 1, offset: 1}] the second, both with a total of 2. *)
Lemma paginated_on_two_rows :
  let first := {| Limit := 1; Offset := 0 |} in
  let second := {| Limit := 1; Offset := 1 |} in
  (∃ w' entities,
     FindAllPaginated MemDB.driver SampleEntity methods first twoRows
     = (w', Return {| PaginationOf := first; TotalCount := 2; Results := entities |})
     ∧ Forall2 (λ p row, p ≫= (heap w' !!.) = Some row) entities [entity 1 "test"])
  ∧ (∃ w' entities,
     FindAllPaginated MemDB.driver SampleEntity methods second twoRows
     = (w', Return {| PaginationOf := second; TotalCount := 2; Results := entities |})
     ∧ Forall2 (λ p row, p ≫= (heap w' !!.) = Some row) entities [entity 2 "test2"]).
Proof.
  intros first second. split.
  - destruct (FindAllPaginated_page_and_total MemDB.driver SampleEntity methods
                first decl twoRows (db twoRows) (db twoRows) [entity 1 "test"] 2
                eq_refl eq_refl eq_refl) as (w' & es & Hrun & _ & _ & Hrows & _).
    exists w', es. split; [exact Hrun | exact Hrows].
  - destruct (FindAllPaginated_page_and_total MemDB.driver SampleEntity methods
                second decl twoRows (db twoRows) (db twoRows) [entity 2 "test2"] 2
                eq_refl eq_refl eq_refl) as (w' & es & Hrun & _ & _ & Hrows & _).
    exists w', es. split; [exact Hrun | exact Hrows].
Defined.

(** Deleting the two saved entities deletes their keys 1 and 2. *)
Lemma delete_entities_on_sample :
  SampleEntity = TDefined decl
  ∧ implements SampleEntity (Entity "int64") = true
  ∧ Forall2 (λ p v, p ≫= (heap saved !!.) = Some v)
      [Some 1%nat; Some 2%nat] [entity 1 "test"; entity 2 "test2"]
  ∧ DeleteEntities MemDB.driver SampleEntity "int64" methods [Some 1%nat; Some 2%nat] saved
    = DeleteByIDs MemDB.driver SampleEntity methods [VInt 1; VInt 2] saved
  ∧ Save MemDB.driver SampleEntity "int64" methods (Some 1%nat) saved
    = SaveAll MemDB.driver SampleEntity "int64" methods [Some 1%nat] saved.
Proof.
  assert (Forall2 (λ p v, p ≫= (heap saved !!.) = Some v)
            [Some 1%nat; Some 2%nat] [entity 1 "test"; entity 2 "test2"]) as Hvs by held.
  destruct (singleton_is_bulk_on_one MemDB.driver SampleEntity "int64" methods
              (Some 1%nat) (VInt 1) [Some 1%nat; Some 2%nat]
              [entity 1 "test"; entity 2 "test2"] saved) as (Hs & _ & _ & Hd).
  split_and!; [reflexivity | reflexivity | exact Hvs
               | exact (Hd decl eq_refl eq_refl Hvs) | exact Hs].
Defined.

(** Saving the two sample entities issues one [INSERT] of two rows that
    leaves the generated key out. *)
Lemma insert_statement_on_sample :
  structFields SampleEntity = Some fields
  ∧ implements SampleEntity (Entity "int64") = true
  ∧ oneKey fields
  ∧ readable fields = true
  ∧ Forall2 (holds MemDB.driver fresh fields)
      [Some 1%nat; Some 2%nat] [entity 0 "test"; entity 0 "test2"]
  ∧ columnList fields = ["name"]
  ∧ trace (SaveAll MemDB.driver SampleEntity "int64" methods [Some 1%nat; Some 2%nat] fresh).1
    = [CExec "INSERT INTO sample_entities (name) VALUES (?),(?)"
             [VString "test"; VString "test2"]].
Proof.
  assert (oneKey fields) as Hone by (vm_compute; lia).
  assert (Forall2 (holds MemDB.driver fresh fields)
            [Some 1%nat; Some 2%nat] [entity 0 "test"; entity 0 "test2"]) as Hvs by held.
  destruct (SaveAll_issues_one_multirow_insert MemDB.driver SampleEntity "int64" methods
              fields _ _ _ fresh eq_refl eq_refl Hone eq_refl Hvs) as (_ & _ & Htr).
  split_and!; [reflexivity | reflexivity | exact Hone | reflexivity | exact Hvs
               | reflexivity | exact Htr].
Defined.

(** Saving the two sample entities on a table whose next key is 1 leaves
    them with keys 1 and 2. *)
Lemma backfill_on_sample :
  wellFormed fields
  ∧ NoDup [Some 1%nat; Some 2%nat]
  ∧ MemDB.exec (db fresh) "INSERT INTO sample_entities (name) VALUES (?),(?)"
      [VString "test"; VString "test2"]
    = (MemDB.Build_state [entity 1 "test"; entity 2 "test2"] 3, inr 1)
  ∧ ∃ w', SaveAll MemDB.driver SampleEntity "int64" methods [Some 1%nat; Some 2%nat] fresh
          = (w', Return ())
          ∧ heap w' !! 1%nat = Some (entity 1 "test")
          ∧ heap w' !! 2%nat = Some (entity 2 "test2").
Proof.
  assert (wellFormed fields) as Hwf by (split; decided).
  assert (NoDup [Some 1%nat; Some 2%nat]) as Hnd by decided.
  assert (oneKey fields) as Hone by (vm_compute; lia).
  assert (Forall2 (holds MemDB.driver fresh fields)
            [Some 1%nat; Some 2%nat] [entity 0 "test"; entity 0 "test2"]) as Hvs by held.
  destruct (SaveAll_backfills_consecutive_ids MemDB.driver SampleEntity "int64" methods
              fields 0%nat _ 64 _ _ _ fresh _ 1 1
              eq_refl eq_refl Hwf Hone eq_refl eq_refl eq_refl eq_refl eq_refl eq_refl
              Hnd Hvs eq_refl eq_refl) as (w' & Hrun & Hval).
  split_and!; [exact Hwf | exact Hnd | reflexivity |].
  exists w'. split_and!; [exact Hrun | |].
  - refine (proj2 (Hval 0%nat 1%nat _ eq_refl eq_refl) _ _); vm_compute; congruence.
  - refine (proj2 (Hval 1%nat 2%nat _ eq_refl eq_refl) _ _); vm_compute; congruence.
Defined.

(** The same entity passed twice: the table gets keys 5 and 6, the driver
    reports 5, and the one entity is left with key 6, so the entity at
    position 0 does not hold 5 + 0. *)
Lemma backfill_on_shared_entity :
  let entities := [Some 1%nat; Some 1%nat] in
  let run := SaveAll MemDB.driver SampleEntity "int64" methods entities oneUnsaved in
  heap oneUnsaved !! 1%nat = Some (entity 0 "test")
  ∧ MemDB.exec (db oneUnsaved) "INSERT INTO sample_entities (name) VALUES (?),(?)"
      [VString "test"; VString "test"]
    = (MemDB.Build_state [entity 5 "test"; entity 6 "test"] 7, inr 5)
  ∧ run.2 = Return ()
  ∧ heap run.1 !! 1%nat = Some (entity 6 "test")
  ∧ ¬ (∀ i l, entities !! i = Some (Some l) →
         heap run.1 !! l = Some (entity (5 + Z.of_nat i) "test")).
Proof.
  intros entities run.
  assert (heap run.1 !! 1%nat = Some (entity 6 "test")) as H6 by (vm_compute; reflexivity).
  split_and!; [reflexivity | reflexivity | vm_compute; reflexivity | exact H6 |].
  intros H. specialize (H 0%nat 1%nat eq_refl). rewrite H6 in H. discriminate H.
Defined.

(** Saving the two sample entities changes their keys and leaves their
    names as they were. *)
Lemma frame_on_sample :
  SaveAll MemDB.driver SampleEntity "int64" methods [Some 1%nat; Some 2%nat] fresh
  = (saved, Return ())
  ∧ ∃ v', heap saved !! 1%nat = Some v' ∧ v' !! 1%nat = Some (VString "test").
Proof.
  assert (SaveAll MemDB.driver SampleEntity "int64" methods [Some 1%nat; Some 2%nat] fresh
          = (saved, Return ())) as Hrun by (vm_compute; reflexivity).
  assert (wellFormed fields) as Hwf by (split; decided).
  destruct (SaveAll_changes_only_generated_key MemDB.driver SampleEntity "int64" methods
              fields _ fresh saved eq_refl Hwf Hrun) as (_ & _ & Hkeep).
  destruct (Hkeep 1%nat (entity 0 "test") eq_refl) as (v' & Hv' & _ & Hoff).
  split; [exact Hrun |]. exists v'. split; [exact Hv' |].
  exact (Hoff 1%nat _ eq_refl eq_refl).
Defined.

(** With the key declared [uint64], saving one entity inserts the row with
    key 5 and then panics; the entity is left as it was. *)
Lemma unsigned_key_on_sample :
  structFields UnsignedEntity = Some unsignedFields
  ∧ implements UnsignedEntity (Entity "uint64") = true
  ∧ wellFormed unsignedFields ∧ oneKey unsignedFields
  ∧ signedBits KUint64 = None
  ∧ readable unsignedFields = true
  ∧ SaveAll MemDB.driver UnsignedEntity "uint64" methods [Some 1%nat] oneUnsaved
    = (@Build_World MemDB.driver (heap oneUnsaved)
         (MemDB.Build_state [entity 5 "test"] 6)
         [CExec "INSERT INTO sample_entities (name) VALUES (?)" [VString "test"]],
       Panic).
Proof.
  assert (wellFormed unsignedFields) as Hwf by (split; decided).
  assert (oneKey unsignedFields) as Hone by (vm_compute; lia).
  assert ([Some 1%nat] ≠ []) as Hne by discriminate.
  assert (Forall2 (holds MemDB.driver oneUnsaved unsignedFields)
            [Some 1%nat] [entity 0 "test"]) as Hvs by held.
  destruct (SaveAll_backfill_needs_signed_key MemDB.driver UnsignedEntity "uint64" methods
              unsignedFields 0%nat _ [Some 1%nat]
              eq_refl eq_refl Hwf Hone eq_refl eq_refl eq_refl eq_refl Hne)
    as (_ & _ & Hrun).
  split_and!; [reflexivity | reflexivity | exact Hwf | exact Hone | reflexivity | reflexivity |].
  exact (Hrun oneUnsaved _ _ _ _ 5 eq_refl Hvs eq_refl eq_refl).
Defined.

(** Instantiated with [E = *User], [SaveAll] returns the not-an-entity error
    on its first entity. *)
Lemma validation_error_on_pointer_type :
  heap onePointer !! 1%nat = Some [VOpaque 7]
  ∧ assertEntity PointerEntity "int64" = false
  ∧ SaveAll MemDB.driver PointerEntity "int64" methods [Some 1%nat] onePointer
    = (onePointer, Err notEntity)
  ∧ assertEntity SampleEntity "int64" = true.
Proof.
  destruct (SaveAll_validation_error_iff MemDB.driver PointerEntity "int64" methods
              1%nat [VOpaque 7] [] onePointer eq_refl) as (Herr & _ & _ & Hptr & _).
  destruct (SaveAll_validation_error_iff MemDB.driver SampleEntity "int64" methods
              1%nat (entity 0 "test") [] fresh eq_refl) as (_ & _ & Hdef & _).
  split_and!; [reflexivity | exact (Hptr _ eq_refl) | exact (Herr (Hptr _ eq_refl))
               | exact (Hdef decl eq_refl eq_refl)].
Defined.

(** [*User] is within the bound [E Entity[ID]], and yet the assertion on the
    first entity fails: the error branch of [SaveAll] is reached. *)
Lemma validation_error_is_reachable :
  implements PointerEntity (Entity "int64") = true
  ∧ heap onePointer !! 1%nat = Some [VOpaque 7]
  ∧ SaveAll MemDB.driver PointerEntity "int64" methods [Some 1%nat] onePointer
    = (onePointer, Err notEntity)
  ∧ ¬ (∀ E, implements E (Entity "int64") = true → assertEntity E "int64" = true).
Proof.
  split_and!; [reflexivity | reflexivity | reflexivity |].
  intros H. specialize (H PointerEntity eq_refl). discriminate H.
Defined.

End Examples.

(** ** Further properties: the reads *)

Section Reads.
Import Strings StringFacts Spec ScanFacts.

Context (drv : Driver) (E : GoType) (methods : EntityMethods).

Implicit Types (w : World drv).

(** Scanned rows land at addresses that were free, each at its own. *)
Lemma newAll_fresh rows : ∀ w,
  ∃ w' ps, newAll drv rows w = (w', Return ps)
           ∧ db w' = db w ∧ trace w' = trace w
           ∧ Forall2 (λ p row, p ≫= (heap w' !!.) = Some row) ps rows
           ∧ (∀ l v, heap w !! l = Some v → heap w' !! l = Some v)
           ∧ NoDup ps
           ∧ (∀ p, p ∈ ps → ∃ l, p = Some l ∧ heap w !! l = None).
Proof.
  induction rows as [|row rows IH]; intros w.
  { exists w, []. split_and!; try done; [constructor | by intros p ?%elem_of_nil]. }
  set (l := fresh (dom (heap w))).
  set (w1 := setHeap drv (<[l := row]> (heap w)) w).
  destruct (IH w1) as (w' & ps & Hrun & Hdb & Htr & Hps & Hkeep & Hnd & Hfree).
  assert (heap w !! l = None) as Hfresh.
  { apply not_elem_of_dom. apply is_fresh. }
  exists w', (Some l :: ps). split_and!; try done.
  - simpl. unfold bind, new. fold l. fold w1. by rewrite Hrun.
  - constructor; [|done]. simpl. apply Hkeep. simpl. by rewrite lookup_insert_eq.
  - intros l' v Hl'. apply Hkeep. simpl. rewrite lookup_insert_ne; [done |].
    intros <-. congruence.
  - constructor; [|done]. intros Hin.
    destruct (Hfree _ Hin) as (l' & [= <-] & Hnone).
    simpl in Hnone. by rewrite lookup_insert_eq in Hnone.
  - intros p [-> | Hin]%elem_of_cons; [by exists l |].
    destruct (Hfree _ Hin) as (l' & -> & Hnone). exists l'. split; [done |].
    simpl in Hnone. destruct (decide (l = l')) as [<- | Hne].
    + by rewrite lookup_insert_eq in Hnone.
    + by rewrite lookup_insert_ne in Hnone.
Qed.

Lemma DB_Select_rows query args w d rows :
  Select drv (db w) query args = (d, inr rows) →
  ∃ w' ps, DB_Select drv query args w = (w', Return ps)
           ∧ db w' = d ∧ trace w' = trace w ++ [CSelect query args]
           ∧ Forall2 (λ p row, p ≫= (heap w' !!.) = Some row) ps rows
           ∧ (∀ l v, heap w !! l = Some v → heap w' !! l = Some v)
           ∧ NoDup ps
           ∧ (∀ p, p ∈ ps → ∃ l, p = Some l ∧ heap w !! l = None).
Proof.
  intros Hsel.
  destruct (newAll_fresh rows (issue drv (CSelect query args) d w))
    as (w' & ps & Hrun & Hdb & Htr & Hps & Hkeep & Hnd & Hfree).
  exists w', ps. split_and!; try done.
  unfold DB_Select, bind. rewrite Hsel. simpl fromDriver. cbv iota. exact Hrun.
Qed.

Lemma DB_Select_error query args w d msg :
  Select drv (db w) query args = (d, inl msg) →
  DB_Select drv query args w = (issue drv (CSelect query args) d w, Err (DriverError msg)).
Proof. intros Hsel. unfold DB_Select, bind. by rewrite Hsel. Qed.

(** X1. For a defined entity type, when the query succeeds, [FindAll] and
    [FindAllByID] return one entity per row, in the order of the rows, each
    a non-nil pointer to a struct holding that row; the pointers are
    pairwise distinct and were not in use before the call, and every
    struct already in the store is kept. *)
Theorem reads_return_fresh_entities (ids : list ID) d w :
  E = TDefined d →
  let table := GetTableName methods (zeroValue d) in
  (∀ d1 rows,
     Select drv (db w) ("SELECT * FROM " +:+ table) [] = (d1, inr rows) →
     ∃ w' entities,
       FindAll drv E methods w = (w', Return entities)
       ∧ Forall2 (λ p row, p ≫= (heap w' !!.) = Some row) entities rows
       ∧ NoDup entities
       ∧ (∀ p, p ∈ entities → ∃ l, p = Some l ∧ heap w !! l = None)
       ∧ (∀ l v, heap w !! l = Some v → heap w' !! l = Some v))
  ∧ (∀ d1 rows,
     Select drv (db w) ("SELECT * FROM " +:+ table +:+ " WHERE id " +:+ (inClause ids).1) ids
     = (d1, inr rows) →
     ∃ w' entities,
       FindAllByID drv E methods ids w = (w', Return entities)
       ∧ Forall2 (λ p row, p ≫= (heap w' !!.) = Some row) entities rows
       ∧ NoDup entities
       ∧ (∀ p, p ∈ entities → ∃ l, p = Some l ∧ heap w !! l = None)
       ∧ (∀ l v, heap w !! l = Some v → heap w' !! l = Some v)).
Proof.
  intros -> table. split; intros d1 rows Hsel.
  - destruct (DB_Select_rows _ _ _ _ _ Hsel)
      as (w' & ps & Hrun & _ & _ & Hps & Hkeep & Hnd & Hfree).
    exists w', ps. split_and!; try done.
  - rewrite inClause_spec in Hsel. simpl fst in Hsel.
    destruct (DB_Select_rows _ _ _ _ _ Hsel)
      as (w' & ps & Hrun & _ & _ & Hps & Hkeep & Hnd & Hfree).
    exists w', ps. split_and!; try done.
    unfold FindAllByID, emptyEntityTableName, bind at 1, ret.
    rewrite inClause_spec. exact Hrun.
Qed.

(** X2. For a defined entity type, when the query of [FindAll], of
    [FindAllByID] or the page query of [FindAllPaginated] fails, the
    operation returns the driver's error as it is, allocates nothing, and
    that one statement is the only one issued: [FindAllPaginated] does not
    go on to count. *)
Theorem reads_return_driver_error (ids : list ID) (pagination : Pagination) d w :
  E = TDefined d →
  let table := GetTableName methods (zeroValue d) in
  (∀ d1 msg,
     Select drv (db w) ("SELECT * FROM " +:+ table) [] = (d1, inl msg) →
     FindAll drv E methods w
     = (issue drv (CSelect ("SELECT * FROM " +:+ table) []) d1 w, Err (DriverError msg)))
  ∧ (∀ d1 msg,
     let query := "SELECT * FROM " +:+ table +:+ " WHERE id " +:+ (inClause ids).1 in
     Select drv (db w) query ids = (d1, inl msg) →
     FindAllByID drv E methods ids w
     = (issue drv (CSelect query ids) d1 w, Err (DriverError msg)))
  ∧ (∀ d1 msg,
     let query := "SELECT * FROM " +:+ table +:+ " LIMIT ? OFFSET ?" in
     let args := [VInt (Limit pagination); VInt (Offset pagination)] in
     Select drv (db w) query args = (d1, inl msg) →
     FindAllPaginated drv E methods pagination w
     = (issue drv (CSelect query args) d1 w, Err (DriverError msg))).
Proof.
  intros -> table. split_and!.
  - intros d1 msg Hsel. by apply DB_Select_error.
  - intros d1 msg query Hsel. subst query. rewrite inClause_spec in *. simpl fst in *.
    unfold FindAllByID, emptyEntityTableName, bind at 1, ret.
    rewrite inClause_spec. by apply DB_Select_error.
  - intros d1 msg query args Hsel.
    unfold FindAllPaginated, emptyEntityTableName, bind at 1, ret.
    fold table. fold query. fold args.
    unfold bind at 1. by rewrite (DB_Select_error _ _ _ _ _ Hsel).
Qed.

(** X3. For a defined entity type, when the page query succeeds and the
    count query fails, [FindAllPaginated] returns the driver's error and
    no result, with both statements issued. *)
Theorem FindAllPaginated_count_error (pagination : Pagination) d w
    (d1 d2 : DBState drv) (rows : list Struct) (msg : string) :
  E = TDefined d →
  let table := GetTableName methods (zeroValue d) in
  let page := "SELECT * FROM " +:+ table +:+ " LIMIT ? OFFSET ?" in
  let args := [VInt (Limit pagination); VInt (Offset pagination)] in
  let count := "SELECT COUNT(*) FROM " +:+ table in
  Select drv (db w) page args = (d1, inr rows) →
  Get drv d1 count [] = (d2, inl msg) →
  ∃ w', FindAllPaginated drv E methods pagination w = (w', Err (DriverError msg))
        ∧ trace w' = trace w ++ [CSelect page args; CGet count []]
        ∧ db w' = d2.
Proof.
  intros -> table page args count Hsel Hget.
  destruct (DB_Select_rows _ _ _ _ _ Hsel) as (w1 & ps & Hrun & Hdb & Htr & _).
  exists (issue drv (CGet count []) d2 w1). split_and!; [| | done].
  - unfold FindAllPaginated, emptyEntityTableName, bind at 1, ret.
    fold table. fold page. fold count. fold args.
    unfold bind at 1. rewrite Hrun. unfold bind, DB_Get. rewrite Hdb. by rewrite Hget.
  - simpl. rewrite Htr. by rewrite <-app_assoc.
Qed.

(** X4. [ExistsByID] is [FindByID] with the entity dropped: it ends in the
    same world, succeeds exactly when [FindByID] does, and otherwise fails
    or panics the same way. *)
Theorem ExistsByID_is_FindByID_without_entity (id : ID) w :
  ExistsByID drv E methods id w
  = let '(w', r) := FindByID drv E methods id w in
    (w', match r with
         | Return _ => Return ()
         | Err e => Err e
         | Panic => Panic
         end).
Proof.
  unfold ExistsByID, FindByID, bind.
  destruct (FindAllByID drv E methods [id] w) as [w' [[|first rest] | e |]]; done.
Qed.

End Reads.

(** ** Further properties: the deletes *)

Section Deletes.
Import Strings StringFacts Spec ScanFacts.

Context (drv : Driver) (E : GoType) (idType : string) (methods : EntityMethods).

Implicit Types (w : World drv).

Lemma emptyEntityTableName_world w w' (r : Res string) :
  emptyEntityTableName drv E methods w = (w', r) → w' = w ∧ notErr r.
Proof.
  unfold emptyEntityTableName. destruct E as [d | t | ms].
  - by intros [= <- <-].
  - destruct (nilGetTableName methods); by intros [= <- <-].
  - by intros [= <- <-].
Qed.

(** The loop of [DeleteEntities] reads the store and nothing else: it ends
    with every entity read, or with a panic or the assertion's error. *)
Lemma collectIDs_inv entities : ∀ ids w w' r,
  collectIDs drv E idType methods entities ids w = (w', r) →
  w' = w
  ∧ ((r = Panic ∨ r = Err notEntity)
     ∨ ∃ vs, Forall2 (λ p v, p ≫= (heap w !!.) = Some v) entities vs
             ∧ r = Return (ids ++ (GetID methods <$> vs))).
Proof.
  induction entities as [|p entities IH]; intros ids w w' r H; simpl in H.
  { injection H as <- <-. split; [done |]. right. exists []. split; [constructor |].
    by rewrite app_nil_r. }
  destruct (assertEntity E idType); [|injection H as <- <-; split; [done | by left; right]].
  unfold bind, deref in H. destruct (p ≫= _) as [v|] eqn:Hp;
    [|injection H as <- <-; split; [done | by left; left]].
  apply IH in H as [-> [Hfail | (vs & Hvs & ->)]]; split; try done; [by left |].
  right. exists (v :: vs). split; [by constructor |]. by rewrite <-app_assoc.
Qed.

Lemma DeleteByIDs_heap (ids : list ID) w :
  heap (DeleteByIDs drv E methods ids w).1 = heap w.
Proof.
  unfold DeleteByIDs, bind at 1.
  destruct (emptyEntityTableName drv E methods w) as [w1 [t | e |]] eqn:Ht;
    apply emptyEntityTableName_world in Ht as [-> Hn]; try done.
  destruct (inClause ids) as [clause args]. unfold bind, DB_Exec.
  by destruct (Exec drv (db w) _ args) as [d' [msg|result]].
Qed.

(** X5. No delete touches the entities in memory, however it ends:
    [DeleteByIDs], [DeleteAll] and [DeleteEntities] (and with them
    [DeleteByID] and [DeleteEntity]) leave the store as it was, so a deleted
    entity keeps its key and its fields. *)
Theorem deletes_leave_the_store (ids : list ID) (entities : list ptr) (id : ID) (e : ptr) w :
  heap (DeleteByIDs drv E methods ids w).1 = heap w
  ∧ heap (DeleteAll drv E methods w).1 = heap w
  ∧ heap (DeleteEntities drv E idType methods entities w).1 = heap w
  ∧ heap (DeleteByID drv E methods id w).1 = heap w
  ∧ heap (DeleteEntity drv E idType methods e w).1 = heap w.
Proof.
  assert (∀ es, heap (DeleteEntities drv E idType methods es w).1 = heap w) as Hes.
  { intros es. unfold DeleteEntities, bind.
    destruct (collectIDs drv E idType methods es [] w) as [w1 [ks | err |]] eqn:Hc;
      apply collectIDs_inv in Hc as [-> _]; try done.
    apply DeleteByIDs_heap. }
  split_and!; [apply DeleteByIDs_heap | | apply Hes | apply DeleteByIDs_heap | apply Hes].
  unfold DeleteAll, bind at 1.
  destruct (emptyEntityTableName drv E methods w) as [w1 [t | err |]] eqn:Ht;
    apply emptyEntityTableName_world in Ht as [-> Hn]; try done.
  unfold bind, DB_Exec.
  by destruct (Exec drv (db w) _ []) as [d' [msg|result]].
Qed.

(** X6. [DeleteEntities] has no early return for an empty list: for a
    defined entity type it issues [DELETE FROM <table> WHERE id IN ()] with
    nothing bound and returns what the driver answers, where [SaveAll] on
    an empty list issues nothing. *)
Theorem DeleteEntities_empty_issues_statement d w :
  E = TDefined d →
  let query := "DELETE FROM " +:+ GetTableName methods (zeroValue d) +:+ " WHERE id IN ()" in
  trace (DeleteEntities drv E idType methods [] w).1 = trace w ++ [CExec query []]
  ∧ db (DeleteEntities drv E idType methods [] w).1 = (Exec drv (db w) query []).1
  ∧ (∀ msg, (Exec drv (db w) query []).2 = inl msg →
       (DeleteEntities drv E idType methods [] w).2 = Err (DriverError msg))
  ∧ trace (SaveAll drv E idType methods [] w).1 = trace w.
Proof.
  intros -> query.
  assert (DeleteEntities drv (TDefined d) idType methods [] w
          = bind (DB_Exec drv query []) (λ _, ret ()) w) as -> by reflexivity.
  unfold bind, DB_Exec.
  destruct (Exec drv (db w) query []) as [d' [msg|result]]; simpl;
    split_and!; try done; intros ? [=]; by subst.
Qed.

(** X7. [DeleteEntities] deletes all or nothing: it ends with the world
    untouched and no statement issued, in a panic or with the
    not-an-entity error, or every entity was read and the one [DELETE] for
    all their keys is what it did.  A nil entity in the list makes it
    panic, for a defined type within the bound; and when [*E] lacks the
    entity methods every non-empty list gives the error. *)
Theorem DeleteEntities_all_or_nothing (entities : list ptr) w :
  (∀ w' r, DeleteEntities drv E idType methods entities w = (w', r) →
     (w' = w ∧ (r = Panic ∨ r = Err notEntity))
     ∨ ∃ vs, Forall2 (λ p v, p ≫= (heap w !!.) = Some v) entities vs
             ∧ DeleteByIDs drv E methods (GetID methods <$> vs) w = (w', r))
  ∧ (∀ d, E = TDefined d → implements E (Entity idType) = true → None ∈ entities →
       DeleteEntities drv E idType methods entities w = (w, Panic))
  ∧ (assertEntity E idType = false → entities ≠ [] →
       DeleteEntities drv E idType methods entities w = (w, Err notEntity)).
Proof.
  split_and!.
  - intros w' r H. unfold DeleteEntities, bind in H.
    destruct (collectIDs drv E idType methods entities [] w) as [w1 [ks | err |]] eqn:Hc;
      apply collectIDs_inv in Hc as [-> [[[=] | [=]] | (vs & Hvs & [=])]]; subst.
    + right. by exists vs.
    + left. by injection H as <- <-; split; [|right].
    + left. by injection H as <- <-; split; [|left].
  - intros d HE Hbound Hnil.
    pose proof (defined_assertEntity E idType d HE Hbound) as Ha.
    unfold DeleteEntities, bind.
    destruct (collectIDs drv E idType methods entities [] w) as [w1 [ks | err |]] eqn:Hc.
    + apply collectIDs_inv in Hc as [-> [[[=] | [=]] | (vs & Hvs & _)]].
      apply list_elem_of_lookup in Hnil as [i Hi].
      destruct (Forall2_lookup_l _ _ _ _ _ Hvs Hi) as (v & _ & Hv). done.
    + exfalso. clear Hnil. revert Hc. generalize (@nil value).
      induction entities as [|p es IH]; intros acc Hc; simpl in Hc; [done |].
      rewrite Ha in Hc. unfold bind, deref in Hc.
      destruct (p ≫= _); [by eapply IH | done].
    + by apply collectIDs_inv in Hc as [-> _].
  - intros Ha Hne. destruct entities as [|p es]; [done |].
    unfold DeleteEntities, bind. simpl. by rewrite Ha.
Qed.

End Deletes.

(** ** Further properties: the bulk insert *)

Section Inserts.
Import Strings StringFacts Spec ScanFacts.

Context (drv : Driver) (E : GoType) (idType : string) (methods : EntityMethods).

Implicit Types (w : World drv) (fields : list StructField).

(** [SaveAll_run] for any struct type on which the two loops skip the same
    fields. *)
Lemma SaveAll_run_agree fields entities v0 vs w :
  structFields E = Some fields →
  assertEntity E idType = true →
  Forall2 (holds drv w fields) entities (v0 :: vs) →
  (∀ f, f ∈ fields → isKey f && idAutoIncrement (scanFields fields) = omitted f) →
  (∀ f, f ∈ fields → omitted f = false → IsExported f = true) →
  SaveAll drv E idType methods entities w
  = afterRows drv fields entities
      (insertQuery (GetTableName methods v0) fields (length entities))
      (insertArgs fields (v0 :: vs)) w.
Proof.
  intros Hfields Hassert Hvs Hskip Hexp.
  destruct entities as [|p0 rest]; [by apply Forall2_nil_inv_l in Hvs |].
  pose proof Hvs as Hvs'.
  apply Forall2_cons_1 in Hvs' as [[Hp0 _] _].
  rewrite SaveAll_cons, Hp0, Hassert, Hfields. simpl negb. cbv iota.
  unfold bind at 1.
  rewrite (buildRows_spec drv) with (vs := v0 :: vs) by done.
  destruct (scanFields_columns fields) as [-> ->].
  cbv beta iota. cbn [fst snd].
  unfold insertQuery, placeholderGroup.
  set (g := "(" +:+ Join (replicate (length (columnList fields)) "?") "," +:+ ")").
  rewrite (repeated_Join g "," (length (p0 :: rest))) by done.
  rewrite <-!append_assoc, TrimSuffix_append by done.
  rewrite !append_assoc. reflexivity.
Qed.

Lemma afterRows_db fields entities query args w w' r :
  afterRows drv fields entities query args w = (w', r) →
  db w' = (Exec drv (db w) query args).1.
Proof.
  unfold afterRows, bind, DB_Exec. intros H.
  destruct (Exec drv (db w) query args) as [d [msg|result]]; simpl in H.
  { by injection H as <- <-. }
  destruct (idAutoIncrement (scanFields fields)); [|by injection H as <- <-].
  destruct (LastInsertId drv result) as [msg|L]; simpl in H; [by injection H as <- <- |].
  by apply backfill_frame in H as (-> & _).
Qed.

(** X8. Whatever the entity type and the entities, [SaveAll] either leaves
    the world exactly as it was (the empty list, a panic or the
    not-an-entity error before the insert) or has issued exactly one
    statement, an [Exec], and the database is as that one call left it: it
    never queries and never issues a second statement. *)
Theorem SaveAll_at_most_one_statement (entities : list ptr) w w' (r : Res ()) :
  SaveAll drv E idType methods entities w = (w', r) →
  (w' = w ∧ (r = Return () ∧ entities = [] ∨ r = Panic ∨ r = Err notEntity))
  ∨ ∃ query args,
      trace w' = trace w ++ [CExec query args]
      ∧ db w' = (Exec drv (db w) query args).1
      ∧ entities ≠ [].
Proof.
  intros H. pose proof H as H'.
  apply SaveAll_inv in H
    as [(-> & -> & ->) | [[-> ->] | [(-> & -> & _) | (fields & q & args & _ & _ & Hrun)]]];
    [left; split; [done | by left] | left; split; [done | by right; left]
     | left; split; [done | by right; right] |].
  right. exists q, args. split_and!.
  - by apply afterRows_world in Hrun as [-> _].
  - by eapply afterRows_db.
  - intros ->. injection H' as <- _. apply afterRows_world in Hrun as [Htr _].
    apply (f_equal length) in Htr. rewrite length_app in Htr. simpl in Htr. lia.
Qed.

(** X9. For an entity type within the bound (at most one field stored as
    [id], persisted fields exported) and non-nil entities: when the insert
    fails, [SaveAll] returns the driver's error with every entity as the
    caller passed it; and when the insert succeeds but the driver cannot
    report the last insert id of an auto-generated key, [SaveAll] returns
    that error, again with every entity unchanged, although the rows are
    inserted. *)
Theorem SaveAll_returns_driver_errors fields entities v0 vs w :
  structFields E = Some fields →
  implements E (Entity idType) = true →
  oneKey fields →
  readable fields = true →
  Forall2 (holds drv w fields) entities (v0 :: vs) →
  let query := insertQuery (GetTableName methods v0) fields (length entities) in
  let args := insertArgs fields (v0 :: vs) in
  (∀ d msg, Exec drv (db w) query args = (d, inl msg) →
     SaveAll drv E idType methods entities w
     = (issue drv (CExec query args) d w, Err (DriverError msg)))
  ∧ (∀ d result msg k key,
       Exec drv (db w) query args = (d, inr result) →
       fields !! k = Some key → omitted key = true →
       LastInsertId drv result = inl msg →
       SaveAll drv E idType methods entities w
       = (issue drv (CExec query args) d w, Err (DriverError msg)))
  ∧ heap (issue drv (CExec query args) (Exec drv (db w) query args).1 w) = heap w.
Proof.
  intros Hf Hbound Hone Hread Hvs query args.
  pose proof (readable_spec fields Hread) as Hexp.
  destruct (structFields_defined E fields Hf) as (d0 & HE & _).
  pose proof (defined_assertEntity E idType d0 HE Hbound) as Hassert.
  pose proof (SaveAll_run drv E idType methods fields entities v0 vs w
                Hf Hassert Hvs Hone Hexp) as Hrun.
  fold query in Hrun. fold args in Hrun. split_and!; [| | done].
  - intros d msg Hexec. rewrite Hrun. unfold afterRows, bind, DB_Exec. by rewrite Hexec.
  - intros d result msg k key Hexec Hk Hom Hlast.
    apply andb_prop in Hom as [Hkey Hauto].
    destruct (oneKey_key fields key Hone) as [Hai _];
      [by eapply list_elem_of_lookup_2 | done |].
    rewrite Hrun. unfold afterRows, bind, DB_Exec. rewrite Hexec. simpl.
    by rewrite Hai, Hauto, Hlast.
Qed.

Lemma rowOf_all fields : ∀ v,
  (∀ f, f ∈ fields → omitted f = false) → length v = length fields →
  rowOf fields v = v.
Proof.
  induction fields as [|f fields IH]; intros [|x v] Hno Hlen; try done.
  simpl. rewrite (Hno f) by apply list_elem_of_here. f_equal.
  apply IH; [|simpl in Hlen; lia]. intros g Hg. apply Hno. by apply list_elem_of_further.
Qed.

(** X10. For an entity type within the bound none of whose fields is an
    auto-generated key (fields exported, entities non-nil): the statement
    names every field and binds every field of every entity, the key the
    caller supplied included; [SaveAll] succeeds exactly when that insert
    does, and returns its error otherwise. *)
Theorem SaveAll_with_supplied_keys fields entities v0 vs w :
  structFields E = Some fields →
  implements E (Entity idType) = true →
  forallb (negb ∘ omitted) fields = true →
  readable fields = true →
  Forall2 (holds drv w fields) entities (v0 :: vs) →
  let query := insertQuery (GetTableName methods v0) fields (length entities) in
  let args := concat (v0 :: vs) in
  columns (scanFields fields) = storageName <$> fields
  ∧ SaveAll drv E idType methods entities w
    = (issue drv (CExec query args) (Exec drv (db w) query args).1 w,
       match (Exec drv (db w) query args).2 with
       | inl msg => Err (DriverError msg)
       | inr _ => Return ()
       end).
Proof.
  intros Hf Hbound Hno Hread Hvs query args.
  pose proof (readable_spec fields Hread) as Hexp.
  destruct (structFields_defined E fields Hf) as (d0 & HE & _).
  pose proof (defined_assertEntity E idType d0 HE Hbound) as Hassert.
  assert (∀ f, f ∈ fields → omitted f = false) as Hno'.
  { intros f Hin. rewrite forallb_forall in Hno. apply list_elem_of_In in Hin.
    specialize (Hno f Hin). simpl in Hno. by destruct (omitted f). }
  assert (idAutoIncrement (scanFields fields) = false) as Hauto.
  { destruct (idAutoIncrement (scanFields fields)) eqn:Ha; [|done].
    destruct (scanFields_auto_key fields Ha) as (Hin & Hk & Hg).
    specialize (Hno' _ Hin). unfold omitted in Hno'. by rewrite Hk, Hg in Hno'. }
  assert (insertArgs fields (v0 :: vs) = args) as Hargs.
  { unfold insertArgs, args. f_equal.
    assert (Forall (λ v, length v = length fields) (v0 :: vs)) as Hlen.
    { apply Forall_forall. intros v Hv. apply list_elem_of_lookup in Hv as [i Hi].
      destruct (Forall2_lookup_r _ _ _ _ _ Hvs Hi) as (p & _ & _ & Hl). done. }
    clear Hvs. induction Hlen as [|v rest Hv _ IH]; [done |].
    rewrite fmap_cons, rowOf_all by done. by f_equal. }
  split.
  - destruct (scanFields_columns fields) as [-> _]. unfold columnList, persisted.
    f_equal. clear -Hno'. induction fields as [|f fields IH]; [done |].
    rewrite filter_cons, decide_True by (apply Hno'; apply list_elem_of_here).
    f_equal. apply IH. intros g Hg. apply Hno'. by apply list_elem_of_further.
  - rewrite (SaveAll_run_agree fields entities v0 vs w) by
      (try done; intros f Hin; by rewrite Hauto, andb_false_r, Hno').
    rewrite Hargs. fold query. unfold afterRows, bind, DB_Exec. rewrite Hauto.
    by destruct (Exec drv (db w) query args) as [d [msg|result]].
Qed.

Lemma rowValues_skip auto ev f fs i acc :
  rowValues auto ev (f :: fs) i acc
  = if isKey f && auto then rowValues auto ev fs (S i) acc
    else match ev ≫= (.!! i) with
         | Some x => if IsExported f then rowValues auto ev fs (S i) (acc ++ [x]) else Panic
         | None => Panic
         end.
Proof.
  simpl. destruct (storageName_part f) as (part & -> & ->). reflexivity.
Qed.

(** On the [Elem] of a nil pointer the inner loop panics at the first field
    it does not skip. *)
Lemma rowValues_nil auto fs : ∀ i acc,
  existsb (negb ∘ isKey) fs = true → rowValues auto None fs i acc = Panic.
Proof.
  induction fs as [|f fs IH]; intros i acc Hex; [done |].
  rewrite rowValues_skip. simpl in Hex.
  destruct (isKey f); simpl in *; [|done].
  destruct auto; [by apply IH | done].
Qed.

(** It panics on every entity when some field that is not the key is
    unexported. *)
Lemma rowValues_unexported auto ev fs : ∀ i acc,
  existsb (λ f, negb (isKey f) && negb (IsExported f)) fs = true →
  rowValues auto ev fs i acc = Panic.
Proof.
  induction fs as [|f fs IH]; intros i acc Hex; [done |].
  rewrite rowValues_skip. simpl in Hex.
  destruct (isKey f) eqn:Hk; simpl in *.
  - destruct auto; simpl; [by apply IH |].
    destruct (ev ≫= _); [|done]. destruct (IsExported f); [by apply IH | done].
  - destruct (ev ≫= _); [|done]. destruct (IsExported f); [by apply IH | done].
Qed.

Lemma buildRows_nil s fields entities : ∀ query values w,
  existsb (negb ∘ isKey) fields = true → None ∈ entities →
  buildRows drv s fields entities query values w = (w, Panic).
Proof.
  induction entities as [|p entities IH]; intros query values w Hex Hnil;
    [by apply elem_of_nil in Hnil |].
  simpl. destruct p as [l|].
  - pose proof (rowValues_notErr (idAutoIncrement s) (heap w !! l) fields 0 values) as Hn.
    simpl. destruct (rowValues _ _ _ _ _); [| done | done].
    apply IH; [done |]. by apply elem_of_cons in Hnil as [[=] | ?].
  - simpl. by rewrite rowValues_nil.
Qed.

(** X11. For a struct entity type within the bound that has a field besides
    the key, a nil entity anywhere in the list makes [SaveAll] panic before
    anything is sent: no statement is issued and no entity is changed. *)
Theorem SaveAll_nil_entity_panics fields (entities : list ptr) w :
  structFields E = Some fields →
  implements E (Entity idType) = true →
  existsb (negb ∘ isKey) fields = true →
  None ∈ entities →
  SaveAll drv E idType methods entities w = (w, Panic).
Proof.
  intros Hf Hbound Hex Hnil.
  destruct (structFields_defined E fields Hf) as (d0 & HE & _).
  pose proof (defined_assertEntity E idType d0 HE Hbound) as Hassert.
  destruct entities as [|p0 rest]; [by apply elem_of_nil in Hnil |].
  rewrite SaveAll_cons. destruct (p0 ≫= _); [|done].
  rewrite Hassert, Hf. simpl negb. cbv iota. unfold bind.
  by rewrite buildRows_nil.
Qed.

(** X12. For a struct entity type within the bound with an unexported field
    that is not the key, [SaveAll] on any non-empty list panics before
    anything is sent, whatever the entities hold. *)
Theorem SaveAll_unexported_field_panics fields (entities : list ptr) w :
  structFields E = Some fields →
  implements E (Entity idType) = true →
  existsb (λ f, negb (isKey f) && negb (IsExported f)) fields = true →
  entities ≠ [] →
  SaveAll drv E idType methods entities w = (w, Panic).
Proof.
  intros Hf Hbound Hex Hne.
  destruct (structFields_defined E fields Hf) as (d0 & HE & _).
  pose proof (defined_assertEntity E idType d0 HE Hbound) as Hassert.
  destruct entities as [|p0 rest]; [done |].
  rewrite SaveAll_cons. destruct (p0 ≫= _) eqn:Hp0; [|done].
  rewrite Hassert, Hf. simpl negb. cbv iota. unfold bind. simpl.
  by rewrite rowValues_unexported.
Qed.

Lemma rowOf_length fields : ∀ v,
  length v = length fields → length (rowOf fields v) = length (persisted fields).
Proof.
  unfold persisted.
  induction fields as [|f fields IH]; intros [|x v] Hlen; try done.
  simpl in Hlen. simpl. destruct (omitted f) eqn:Hom.
  - rewrite filter_cons_False by congruence. apply IH. lia.
  - rewrite filter_cons_True by done. simpl. f_equal. apply IH. lia.
Qed.

(** X13. For an entity type within the bound (at most one field stored as
    [id], persisted fields exported) and non-nil entities, the one statement
    [SaveAll] issues binds exactly as many values as it has placeholders:
    the number of entities times the number of columns. *)
Theorem SaveAll_binds_one_value_per_placeholder fields entities v0 vs w :
  structFields E = Some fields →
  implements E (Entity idType) = true →
  oneKey fields →
  readable fields = true →
  Forall2 (holds drv w fields) entities (v0 :: vs) →
  ∃ query args,
    trace (SaveAll drv E idType methods entities w).1 = trace w ++ [CExec query args]
    ∧ length (placeholders (scanFields fields)) = length (columns (scanFields fields))
    ∧ length args
      = (length entities * length (placeholders (scanFields fields)))%nat.
Proof.
  intros Hf Hbound Hone Hread Hvs.
  pose proof (readable_spec fields Hread) as Hexp.
  destruct (structFields_defined E fields Hf) as (d0 & HE & _).
  pose proof (defined_assertEntity E idType d0 HE Hbound) as Hassert.
  exists (insertQuery (GetTableName methods v0) fields (length entities)),
         (insertArgs fields (v0 :: vs)).
  destruct (scanFields_columns fields) as [-> ->]. rewrite length_replicate.
  split_and!; [| done |].
  - rewrite (SaveAll_run drv E idType methods fields entities v0 vs w) by done.
    destruct (afterRows _ _ _ _ _ _) as [w' r] eqn:Hrun.
    by apply afterRows_world in Hrun as [Htr _].
  - rewrite (Forall2_length _ _ _ Hvs).
    assert (Forall (λ v, length v = length fields) (v0 :: vs)) as Hlen.
    { apply Forall_forall. intros v Hv. apply list_elem_of_lookup in Hv as [i Hi].
      destruct (Forall2_lookup_r _ _ _ _ _ Hvs Hi) as (p & _ & _ & Hl). done. }
    unfold insertArgs, columnList. rewrite length_fmap.
    clear Hvs. induction Hlen as [|v rest Hv _ IH]; [done |].
    rewrite fmap_cons. simpl. rewrite length_app, IH, rowOf_length by done. lia.
Qed.

(** The back-fill loop on entities that may repeat: each struct ends with
    the identifier of the last position it is passed at. *)
Lemma backfill_last s fields L k f bits :
  FieldByName fields (Name (idField s)) = Some (k, f) →
  IsExported f = true → signedBits (FieldKind f) = Some bits →
  ∀ entities i w,
    (∀ p, p ∈ entities → ∃ l v, p = Some l ∧ heap w !! l = Some v ∧ (k < length v)%nat) →
    ∃ w', backfill drv s fields L entities i w = (w', Return ())
          ∧ ∀ j l v, entities !! j = Some (Some l) →
              (∀ j', (j < j')%nat → entities !! j' ≠ Some (Some l)) →
              heap w !! l = Some v →
              heap w' !! l
              = Some (<[k := VInt (wrapSigned bits (addInt64 L (Z.of_nat (i + j))))]> v).
Proof.
  intros Hf Hex Hbits. induction entities as [|p entities IH]; intros i w Hall.
  { exists w. split; [done |]. intros j l v Hj. by rewrite lookup_nil in Hj. }
  destruct (Hall p) as (l0 & v0 & -> & Hl0 & Hk); [apply list_elem_of_here |].
  pose proof Hk as Hk'. apply lookup_lt_is_Some_2 in Hk' as [x Hx].
  set (v1 := <[k := VInt (wrapSigned bits (addInt64 L (Z.of_nat i)))]> v0).
  set (w1 := setHeap drv (<[l0 := v1]> (heap w)) w).
  destruct (IH (S i) w1) as (w' & Hrun & Hval).
  { intros p Hin. destruct (Hall p) as (l & v & -> & Hl & Hlen);
      [by apply list_elem_of_further |].
    destruct (decide (l = l0)) as [-> | Hne].
    - exists l0, v1. simpl. rewrite lookup_insert_eq. split_and!; [done | done |].
      unfold v1. rewrite length_insert. lia.
    - exists l, v. simpl. by rewrite lookup_insert_ne. }
  exists w'. split.
  - simpl. rewrite Hl0, Hf. unfold bind, SetInt. rewrite Hx, Hex, Hbits. exact Hrun.
  - intros j l v Hj Hlast Hl. destruct j as [|j]; simpl in Hj.
    + injection Hj as <-. assert (v = v0) as -> by congruence.
      apply backfill_frame in Hrun as (_ & _ & _ & Hout & _).
      rewrite Hout; [simpl; by rewrite lookup_insert_eq, Nat.add_0_r |].
      intros [j Hj]%list_elem_of_lookup. by apply (Hlast (S j)); [lia |].
    + assert (∀ j', (j < j')%nat → entities !! j' ≠ Some (Some l)) as Hlast'.
      { intros j' Hlt. apply (Hlast (S j')). lia. }
      replace (i + S j)%nat with (S i + j)%nat by lia.
      destruct (decide (l = l0)) as [-> | Hne].
      * assert (v = v0) as -> by congruence.
        rewrite (Hval j l0 v1 Hj Hlast'); [|simpl; by rewrite lookup_insert_eq].
        unfold v1. by rewrite list_insert_insert_eq.
      * apply (Hval j l v Hj Hlast'). simpl. by rewrite lookup_insert_ne.
Qed.

(** X14. For an entity type within the bound whose auto-generated key field
    is exported and of a signed integer kind, and a non-empty list of
    non-nil entities in which an entity may occur several times: when the
    insert succeeds and the driver reports [L], [SaveAll] succeeds, having
    sent one row per position, and each entity is left with [L + j], where
    [j] is the last position it occurs at. *)
Theorem SaveAll_repeated_entity_keeps_last_id fields k key bits entities v0 vs w
    (d : DBState drv) (result : SqlResult drv) (L : Z) :
  structFields E = Some fields →
  implements E (Entity idType) = true →
  wellFormed fields → oneKey fields →
  readable fields = true →
  fields !! k = Some key → isKey key = true → autoGenerated key = true →
  IsExported key = true → signedBits (FieldKind key) = Some bits →
  Forall2 (holds drv w fields) entities (v0 :: vs) →
  Exec drv (db w) (insertQuery (GetTableName methods v0) fields (length entities))
       (insertArgs fields (v0 :: vs)) = (d, inr result) →
  LastInsertId drv result = inr L →
  ∃ w',
    SaveAll drv E idType methods entities w = (w', Return ())
    ∧ length (insertArgs fields (v0 :: vs))
      = (length entities * length (columnList fields))%nat
    ∧ ∀ j l v, entities !! j = Some (Some l) →
        (∀ j', (j < j')%nat → entities !! j' ≠ Some (Some l)) →
        heap w !! l = Some v →
        heap w' !! l = Some (<[k := VInt (wrapSigned bits (addInt64 L (Z.of_nat j)))]> v).
Proof.
  intros Hf Hbound Hwf Hone Hread Hlook Hk Hauto Hex Hbits Hvs Hexec Hlast.
  pose proof (readable_spec fields Hread) as Hexp.
  assert (key ∈ fields) as Hkey by by eapply list_elem_of_lookup_2.
  destruct (structFields_defined E fields Hf) as (d0 & HE & _).
  pose proof (defined_assertEntity E idType d0 HE Hbound) as Hassert.
  destruct (oneKey_key fields key Hone Hkey Hk) as [Hai Hid].
  pose proof (FieldByName_at fields key k Hwf Hlook) as Hfind.
  set (w1 := issue drv (CExec (insertQuery (GetTableName methods v0) fields (length entities))
                              (insertArgs fields (v0 :: vs))) d w).
  destruct (backfill_last (scanFields fields) fields L k key bits) with
    (entities := entities) (i := 0%nat) (w := w1) as (w' & Hrun & Hval);
    [by rewrite Hid | done | done | |].
  { intros p Hp. apply list_elem_of_lookup in Hp as [i Hi].
    destruct (Forall2_lookup_l _ _ _ _ _ Hvs Hi) as (v & _ & Hholds).
    destruct (holds_pointer drv _ _ _ _ Hholds) as (l & -> & Hl).
    exists l, v. split_and!; [done | done |].
    destruct Hholds as [_ ->]. by eapply lookup_lt_Some. }
  exists w'. split_and!.
  - rewrite (SaveAll_run drv E idType methods fields entities v0 vs w) by done.
    unfold afterRows, bind at 1, DB_Exec. rewrite Hexec. simpl fromDriver. cbv iota.
    rewrite Hai, Hauto. unfold bind at 1. rewrite Hlast. exact Hrun.
  - rewrite (Forall2_length _ _ _ Hvs).
    assert (Forall (λ v, length v = length fields) (v0 :: vs)) as Hlen.
    { apply Forall_forall. intros v Hv. apply list_elem_of_lookup in Hv as [i Hi].
      destruct (Forall2_lookup_r _ _ _ _ _ Hvs Hi) as (p & _ & _ & Hl). done. }
    unfold insertArgs, columnList. rewrite length_fmap.
    clear -Hlen. induction Hlen as [|v rest Hv _ IH]; [done |].
    rewrite fmap_cons. simpl. rewrite length_app, IH, rowOf_length by done. lia.
  - intros j l v Hj Hl' Hl. by apply (Hval j l v).
Qed.

(** X15. When several fields are stored as [id], the last of them alone
    decides: it is the field the first loop ends with, the one the
    back-fill writes, and its tag alone says whether keys are generated,
    whatever the earlier ones are tagged. *)
Theorem scanFields_last_id_field_decides (before after : list StructField) (key : StructField) :
  isKey key = true →
  forallb (negb ∘ isKey) after = true →
  idField (scanFields (before ++ key :: after)) = key
  ∧ idAutoIncrement (scanFields (before ++ key :: after)) = autoGenerated key.
Proof.
  intros Hk Hafter.
  pose proof (scanFields_key (before ++ key :: after)) as H.
  rewrite filter_app, filter_cons_True in H by done.
  assert (filter (λ f, isKey f = true) after = []) as Hnil.
  { clear -Hafter. induction after as [|f fs IH]; [done |].
    simpl in Hafter. apply andb_prop in Hafter as [Hf Hfs].
    rewrite filter_cons_False; [by apply IH |]. by destruct (isKey f). }
  rewrite Hnil in H.
  rewrite last_snoc in H. destruct H as [Ha Hi]. by split.
Qed.

End Inserts.

(** ** Further properties: the helpers of [test_utils.go] *)

Section Helpers.
Import Strings StringFacts Spec ScanFacts.

Context (drv : Driver).

Implicit Types (w : World drv).

Lemma wrapSigned_range bits x :
  0 < bits → - 2 ^ (bits - 1) ≤ wrapSigned bits x < 2 ^ (bits - 1).
Proof.
  intros Hb. unfold wrapSigned.
  assert (2 ^ bits = 2 * 2 ^ (bits - 1)) as Hp.
  { rewrite <-Z.pow_succ_r by lia. f_equal. lia. }
  assert (0 < 2 ^ bits) by (apply Z.pow_pos_nonneg; lia).
  pose proof (Z.mod_pos_bound (x + 2 ^ (bits - 1)) (2 ^ bits)). lia.
Qed.




(** X17. On the sample entity, [Save(&e)] does what the hand-written
    [InsertRecordsToSampleEntity(db, e)] does: it sends the same statement
    with the same value, fails with the same error, and on success leaves
    in [e.Id] the id the helper returns (as an [int64]), with the name
    untouched. *)
Theorem Save_matches_InsertRecordsToSampleEntity (e : TestUtils.SampleEntity) (l : loc) w :
  heap w !! l = Some (TestUtils.toStruct e) →
  match TestUtils.InsertRecordsToSampleEntity drv e w with
  | (w1, Return id) =>
      Save drv Sample.SampleEntity "int64" Sample.methods (Some l) w
      = (setHeap drv (<[l := Sample.entity (wrapSigned 64 id) (TestUtils.Name e)]> (heap w)) w1,
         Return ())
  | (w1, Err err) =>
      Save drv Sample.SampleEntity "int64" Sample.methods (Some l) w = (w1, Err err)
  | (w1, Panic) => False
  end.
Proof.
  intros Hl.
  assert (oneKey Sample.fields) as Hone by (vm_compute; lia).
  assert (Forall2 (holds drv w Sample.fields) [Some l] [TestUtils.toStruct e]) as Hvs.
  { constructor; [|constructor]. split; [exact Hl | reflexivity]. }
  unfold Save.
  rewrite (SaveAll_run drv Sample.SampleEntity "int64" Sample.methods
             Sample.fields [Some l] (TestUtils.toStruct e) [] w eq_refl eq_refl Hvs Hone
             (readable_spec Sample.fields eq_refl)).
  change (insertQuery _ Sample.fields _)
    with "INSERT INTO sample_entities (name) VALUES (?)".
  change (insertArgs Sample.fields [TestUtils.toStruct e]) with [VString (TestUtils.Name e)].
  unfold afterRows, TestUtils.InsertRecordsToSampleEntity, bind, DB_Exec.
  destruct (Exec drv (db w) _ _) as [d [msg|result]]; [done |].
  change (idAutoIncrement (scanFields Sample.fields)) with true.
  simpl fromDriver. cbv iota beta.
  destruct (LastInsertId drv result) as [msg|id]; [done |].
  simpl fromDriver. cbv iota beta.
  unfold ret, backfill, issue. simpl heap. rewrite Hl.
  change (FieldByName Sample.fields (Name (idField (scanFields Sample.fields))))
    with (Some (0%nat, {| Name := "Id"; PkgPath := ""; TagDb := "id,autoincrement";
                          FieldKind := KInt64 |})).
  unfold bind, SetInt, setHeap, addInt64. simpl.
  rewrite Z.add_0_r.
  rewrite (wrapSigned_small 64 (wrapSigned 64 id)) by (pose proof (wrapSigned_range 64 id); lia).
  reflexivity.
Qed.

End Helpers.

(** ** The further properties on examples *)

Section MoreExamples.
Import Sample Scenario Fixtures Spec.

Local Ltac held := repeat constructor; reflexivity.

(** On the table of two rows [FindAll] returns two distinct fresh entities
    holding the rows. *)
Lemma fresh_entities_on_two_rows :
  SampleEntity = TDefined decl
  ∧ ∃ w' entities,
      FindAll MemDB.driver SampleEntity methods twoRows = (w', Return entities)
      ∧ Forall2 (λ p row, p ≫= (heap w' !!.) = Some row) entities
          [entity 1 "test"; entity 2 "test2"]
      ∧ NoDup entities.
Proof.
  split; [reflexivity |].
  destruct (reads_return_fresh_entities MemDB.driver SampleEntity methods [] decl twoRows
              eq_refl) as [Hall _].
  destruct (Hall (db twoRows) [entity 1 "test"; entity 2 "test2"] eq_refl)
    as (w' & es & Hrun & Hrows & Hnd & _).
  exists w', es. split_and!; [exact Hrun | exact Hrows | exact Hnd].
Defined.

(** [FindAllByID] with no identifiers returns the error the store gives
    for [IN ()]. *)
Lemma driver_error_on_empty_in :
  SampleEntity = TDefined decl
  ∧ MemDB.select (db twoRows) "SELECT * FROM sample_entities WHERE id IN ()" []
    = (db twoRows, inl "You have an error in your SQL syntax")
  ∧ (FindAllByID MemDB.driver SampleEntity methods [] twoRows).2
    = Err (DriverError "You have an error in your SQL syntax").
Proof.
  destruct (reads_return_driver_error MemDB.driver SampleEntity methods []
              {| Limit := 1; Offset := 0 |} decl twoRows eq_refl) as (_ & Hby & _).
  split_and!; [reflexivity | reflexivity |].
  exact (f_equal snd (Hby (db twoRows) _ eq_refl)).
Defined.

(** A driver that finds the page and fails to count. *)
Lemma count_error_on_stub :
  SampleEntity = TDefined decl
  ∧ ∃ w', FindAllPaginated (stub true true true false) SampleEntity methods
            {| Limit := 1; Offset := 0 |} (stubWorld true true true false)
          = (w', Err (DriverError "count failed"))
          ∧ length (trace w') = 2%nat.
Proof.
  split; [reflexivity |].
  destruct (FindAllPaginated_count_error (stub true true true false) SampleEntity methods
              {| Limit := 1; Offset := 0 |} decl (stubWorld true true true false)
              () () [] "count failed" eq_refl eq_refl eq_refl) as (w' & Hrun & Htr & _).
  exists w'. split; [exact Hrun |]. exact (f_equal length Htr).
Defined.

(** [DeleteEntities] on no entity sends [DELETE ... WHERE id IN ()]. *)
Lemma delete_no_entities_on_sample :
  SampleEntity = TDefined decl
  ∧ trace (DeleteEntities MemDB.driver SampleEntity "int64" methods [] twoRows).1
    = [CExec "DELETE FROM sample_entities WHERE id IN ()" []]
  ∧ (DeleteEntities MemDB.driver SampleEntity "int64" methods [] twoRows).2
    = Err (DriverError "You have an error in your SQL syntax").
Proof.
  destruct (DeleteEntities_empty_issues_statement MemDB.driver SampleEntity "int64" methods
              decl twoRows eq_refl) as (Htr & _ & Herr & _).
  split_and!; [reflexivity | exact Htr | exact (Herr _ eq_refl)].
Defined.

(** Deleting a saved entity and a nil one panics with nothing deleted. *)
Lemma delete_with_nil_entity_on_sample :
  implements SampleEntity (Entity "int64") = true
  ∧ None ∈ [Some 1%nat; None]
  ∧ DeleteEntities MemDB.driver SampleEntity "int64" methods [Some 1%nat; None] saved
    = (saved, Panic).
Proof.
  assert (None ∈ [Some 1%nat; (None : option nat)]) as Hnil
    by (apply list_elem_of_further, list_elem_of_here).
  destruct (DeleteEntities_all_or_nothing MemDB.driver SampleEntity "int64" methods
              [Some 1%nat; None] saved) as (_ & Hpanic & _).
  split_and!; [reflexivity | exact Hnil | exact (Hpanic decl eq_refl eq_refl Hnil)].
Defined.

(** Saving the two sample entities issues the one [INSERT]. *)
Lemma one_statement_on_sample :
  SaveAll MemDB.driver SampleEntity "int64" methods [Some 1%nat; Some 2%nat] fresh
  = (saved, Return ())
  ∧ ∃ query args, trace saved = trace fresh ++ [CExec query args].
Proof.
  assert (SaveAll MemDB.driver SampleEntity "int64" methods [Some 1%nat; Some 2%nat] fresh
          = (saved, Return ())) as Hrun by (vm_compute; reflexivity).
  split; [exact Hrun |].
  destruct (SaveAll_at_most_one_statement MemDB.driver SampleEntity "int64" methods
              _ fresh saved _ Hrun) as [[Heq _] | (q & args & Htr & _)].
  - exfalso. discriminate (f_equal (λ w, length (trace w)) Heq).
  - exists q, args. exact Htr.
Defined.

(** With a driver that rejects the insert, and with one that cannot report
    the last insert id, [SaveAll] fails and the entities keep key 0. *)
Lemma driver_errors_on_stub :
  let entities := [Some 1%nat; Some 2%nat] in
  oneKey fields ∧ readable fields = true
  ∧ (∃ w', SaveAll (stub false true true true) SampleEntity "int64" methods entities
             (stubWorld false true true true) = (w', Err (DriverError "exec failed"))
           ∧ heap w' = unsaved)
  ∧ (∃ w', SaveAll (stub true false true true) SampleEntity "int64" methods entities
             (stubWorld true false true true) = (w', Err (DriverError "no insert id"))
           ∧ heap w' = unsaved).
Proof.
  intros entities.
  assert (oneKey fields) as Hone by (vm_compute; lia).
  assert (Forall2 (holds (stub false true true true) (stubWorld false true true true) fields)
            entities [entity 0 "test"; entity 0 "test2"]) as Hvs1 by held.
  assert (Forall2 (holds (stub true false true true) (stubWorld true false true true) fields)
            entities [entity 0 "test"; entity 0 "test2"]) as Hvs2 by held.
  destruct (SaveAll_returns_driver_errors (stub false true true true) SampleEntity "int64"
              methods fields entities _ _ _ eq_refl eq_refl Hone eq_refl Hvs1)
    as (Hexec & _ & _).
  destruct (SaveAll_returns_driver_errors (stub true false true true) SampleEntity "int64"
              methods fields entities _ _ _ eq_refl eq_refl Hone eq_refl Hvs2)
    as (_ & Hlast & _).
  split_and!; [exact Hone | reflexivity | |].
  - eexists. split; [exact (Hexec () "exec failed" eq_refl) | reflexivity].
  - eexists. split;
      [exact (Hlast () () "no insert id" 0%nat _ eq_refl eq_refl eq_refl eq_refl)
      | reflexivity].
Defined.

(** With the key supplied by the caller, both fields of both entities are
    sent and [SaveAll] succeeds as the insert does. *)
Lemma supplied_keys_on_stub :
  let w : World (stub true true true true) :=
    @Build_World (stub true true true true)
      (<[2%nat := entity 8 "test2"]> (<[1%nat := entity 7 "test"]> ∅)) () [] in
  forallb (negb ∘ omitted) suppliedFields = true
  ∧ readable suppliedFields = true
  ∧ columns (scanFields suppliedFields) = ["id"; "name"]
  ∧ SaveAll (stub true true true true) SuppliedEntity "int64" methods
      [Some 1%nat; Some 2%nat] w
    = (@Build_World (stub true true true true) (heap w) ()
         [CExec "INSERT INTO sample_entities (id,name) VALUES (?,?),(?,?)"
                [VInt 7; VString "test"; VInt 8; VString "test2"]],
       Return ()).
Proof.
  intros w.
  assert (Forall2 (holds (stub true true true true) w suppliedFields)
            [Some 1%nat; Some 2%nat] [entity 7 "test"; entity 8 "test2"]) as Hvs by held.
  destruct (SaveAll_with_supplied_keys (stub true true true true) SuppliedEntity "int64"
              methods suppliedFields _ _ _ w eq_refl eq_refl eq_refl eq_refl Hvs)
    as [Hcols Hrun].
  split_and!; [reflexivity | reflexivity | exact Hcols | exact Hrun].
Defined.

(** A nil entity after a good one: [SaveAll] panics and nothing is sent. *)
Lemma nil_entity_on_sample :
  existsb (negb ∘ isKey) fields = true
  ∧ None ∈ [Some 1%nat; None]
  ∧ SaveAll MemDB.driver SampleEntity "int64" methods [Some 1%nat; None] fresh
    = (fresh, Panic).
Proof.
  assert (None ∈ [Some 1%nat; (None : option nat)]) as Hnil
    by (apply list_elem_of_further, list_elem_of_here).
  split_and!; [reflexivity | exact Hnil |].
  exact (SaveAll_nil_entity_panics MemDB.driver SampleEntity "int64" methods fields
           [Some 1%nat; None] fresh eq_refl eq_refl eq_refl Hnil).
Defined.

(** With the name unexported, saving panics and nothing is sent. *)
Lemma unexported_field_on_sample :
  existsb (λ f, negb (isKey f) && negb (IsExported f)) hiddenFields = true
  ∧ SaveAll MemDB.driver HiddenEntity "int64" methods [Some 1%nat] fresh = (fresh, Panic).
Proof.
  assert ([Some 1%nat] ≠ []) as Hne by discriminate.
  split; [reflexivity |].
  exact (SaveAll_unexported_field_panics MemDB.driver HiddenEntity "int64" methods
           hiddenFields [Some 1%nat] fresh eq_refl eq_refl eq_refl Hne).
Defined.

(** Two sample entities: two values for two placeholders. *)
Lemma values_match_placeholders_on_sample :
  oneKey fields
  ∧ ∃ query args,
      trace (SaveAll MemDB.driver SampleEntity "int64" methods
               [Some 1%nat; Some 2%nat] fresh).1 = trace fresh ++ [CExec query args]
      ∧ length args = (2 * 1)%nat.
Proof.
  assert (oneKey fields) as Hone by (vm_compute; lia).
  assert (Forall2 (holds MemDB.driver fresh fields)
            [Some 1%nat; Some 2%nat] [entity 0 "test"; entity 0 "test2"]) as Hvs by held.
  destruct (SaveAll_binds_one_value_per_placeholder MemDB.driver SampleEntity "int64"
              methods fields _ _ _ fresh eq_refl eq_refl Hone eq_refl Hvs)
    as (q & args & Htr & _ & Hlen).
  split; [exact Hone |]. exists q, args. split; [exact Htr | exact Hlen].
Defined.

(** The same entity passed twice on a table whose next key is 5: two rows
    are sent and the entity is left with key 6. *)
Lemma repeated_entity_on_sample :
  wellFormed fields
  ∧ ∃ w', SaveAll MemDB.driver SampleEntity "int64" methods [Some 1%nat; Some 1%nat]
            oneUnsaved = (w', Return ())
          ∧ heap w' !! 1%nat = Some (entity 6 "test").
Proof.
  assert (wellFormed fields) as Hwf
    by (split; refine (bool_decide_unpack _ _); vm_compute; exact I).
  assert (oneKey fields) as Hone by (vm_compute; lia).
  assert (Forall2 (holds MemDB.driver oneUnsaved fields)
            [Some 1%nat; Some 1%nat] [entity 0 "test"; entity 0 "test"]) as Hvs by held.
  destruct (SaveAll_repeated_entity_keeps_last_id MemDB.driver SampleEntity "int64" methods
              fields 0%nat _ 64 _ _ _ oneUnsaved _ 5 5
              eq_refl eq_refl Hwf Hone eq_refl eq_refl eq_refl eq_refl eq_refl eq_refl
              Hvs eq_refl eq_refl) as (w' & Hrun & _ & Hval).
  split; [exact Hwf |]. exists w'. split; [exact Hrun |].
  refine (Hval 1%nat 1%nat _ eq_refl _ eq_refl).
  intros [|[|[|j']]] Hlt; simpl; (lia || discriminate).
Defined.

(** A generated [id] followed by a plain one: the plain one decides, and
    no key is generated. *)
Lemma last_id_field_on_example :
  isKey legacyId = true
  ∧ forallb (negb ∘ isKey) [nameField] = true
  ∧ idField (scanFields [generatedId; legacyId; nameField]) = legacyId
  ∧ idAutoIncrement (scanFields [generatedId; legacyId; nameField]) = false.
Proof.
  destruct (scanFields_last_id_field_decides [generatedId] [nameField] legacyId
              eq_refl eq_refl) as [Hid Hauto].
  split_and!; [reflexivity | reflexivity | exact Hid | exact Hauto].
Defined.


(** Saving one sample entity on a table whose next key is 5 leaves it key
    5, as the helper returns 5. *)
Lemma save_matches_helper_on_sample :
  let e := TestUtils.Build_SampleEntity 0 "test" in
  heap oneUnsaved !! 1%nat = Some (TestUtils.toStruct e)
  ∧ (TestUtils.InsertRecordsToSampleEntity MemDB.driver e oneUnsaved).2 = Return 5
  ∧ ∃ w', Save MemDB.driver SampleEntity "int64" methods (Some 1%nat) oneUnsaved
          = (w', Return ())
          ∧ heap w' !! 1%nat = Some (entity 5 "test").
Proof.
  intros e.
  pose proof (Save_matches_InsertRecordsToSampleEntity MemDB.driver e 1%nat oneUnsaved
                eq_refl) as H.
  split_and!; [reflexivity | reflexivity |].
  eexists. split; [exact H | reflexivity].
Defined.

End MoreExamples.
